(** * Configuration: a shallow embedding of the factory, the INI loader
      and the backend contract

    The development follows the C++ sources:
    - [ConfigurationFactory.cxx]: [getFile], [getJson], [getConsul] and
      [ConfigurationFactory::getConfiguration] (module [Factory]);
    - [Configuration.cxx]: [configFile::load] and [configFile::getValue]
      (module [ConfigFile]);
    - [ConfigurationInterface.h]: the contract of the back ends
      (modules [Backend] and [Tree]); the bodies behind that header are
      not among the sources at hand and are modelled from the
      specification, which each such definition says. *)

From Stdlib Require Import ZArith Ascii String List Lia.
From stdpp Require Import base option list strings pretty gmap.

Set Default Proof Using "Type".

(** ** C++ library vocabulary shared by the modules *)

(** [std::string::empty]. *)
Definition empty (s : string) : bool :=
  match s with
  | EmptyString => true
  | String _ _ => false
  end.

(** [std::unique_ptr<T>]: either null or owning one object. *)
Inductive unique_ptr (T : Type) : Type :=
| nullptr : unique_ptr T
| owning : T → unique_ptr T.
Arguments nullptr {T}.
Arguments owning {T} _.

(** ** The parsed URI: [http::url] of [UriParser.hpp]

    Only the fields the factory reads are kept. *)
Module http.
Record url : Type := Build_url {
  protocol : string;
  host : string;
  path : string;
  port : Z
}.
End http.

(** ** ConfigurationFactory.cxx *)
Module Factory.
Import http.

(** The two preprocessor switches of the translation unit. *)
Record build : Type := Build {
  FLP_CONFIGURATION_BACKEND_FILE_JSON_ENABLED : bool;
  FLP_CONFIGURATION_BACKEND_CONSUL_ENABLED : bool
}.

(** The objects the factory can create, named by class and constructor
    arguments. *)
Inductive Backend : Type :=
| FileBackend (filePath : string)
| JsonBackend (filePath : string)
| ConsulBackend (host : string) (port : Z).

Definition UniqueConfiguration : Type := unique_ptr Backend.

(** Every use the factory makes of a backend class: the construction
    of an object, and the one method it ever calls on one. *)
Inductive call : Type :=
| construct (b : Backend)
| setPrefix (b : Backend) (prefix : string).

(** What can leave [getConfiguration] by [throw]: the
    [std::runtime_error]s the factory raises itself, and whatever a
    backend class raised while it was being used. *)
Inductive exception : Type :=
| runtime_error (what : string)
| backend_failure (c : call) (what : string).

(** Computations that log their calls to the backend classes and may
    throw. The log is in call order. *)
Definition M (A : Type) : Type := list call → list call * (exception + A).

#[global] Instance M_ret : MRet M := λ A a log, (log, inr a).
#[global] Instance M_bind : MBind M := λ A B f m log,
  match m log with
  | (log', inl e) => (log', inl e)
  | (log', inr a) => f a log'
  end.

Definition throw {A : Type} (e : exception) : M A := λ log, (log, inl e).

(** A computation started with an empty log. *)
Definition run {A : Type} (m : M A) : list call * (exception + A) := m [].

Section WithEnvironment.
(** [http::ParseHttpUrl], from the header [UriParser/UriParser.hpp]. *)
Variable ParseHttpUrl : string → url.
(** The macros defined for this build. *)
Variable defs : build.
(** The backend classes are defined elsewhere; a call into one
    either returns or raises an exception with some message. *)
Variable raises : call → option string.

(** One call into a backend class: logged, then it returns or
    throws. *)
Definition perform (c : call) : M unit := λ log,
  match raises c with
  | Some what => (log ++ [c], inl (backend_failure c what))
  | None => (log ++ [c], inr tt)
  end.

(** [std::make_unique<B>(args...)]: runs the constructor and, when
    it returns, yields a pointer that owns the new object. *)
Definition make_unique (b : Backend) : M UniqueConfiguration :=
  perform (construct b) ≫= λ _, mret (owning b).

(** [ptr->setPrefix(prefix)]. *)
Definition call_setPrefix (ptr : UniqueConfiguration) (prefix : string)
  : M unit :=
  match ptr with
  | owning b => perform (setPrefix b prefix)
  | nullptr => mret tt (* not reached: [make_unique] never yields null *)
  end.

(** [getFile]. From the source: "If the authority part of the URI is
    missing (host, port, etc), the parser will consider the thing
    before the first delimiter ('/') of the path as authority, so we
    have to include that in the path we use." *)
Definition getFile (uri : url) : M UniqueConfiguration :=
  let path := "/" +:+ host uri +:+ path uri in
  make_unique (FileBackend path).

(** [getJson]: the same path, under its [#ifdef]. *)
Definition getJson (uri : url) : M UniqueConfiguration :=
  if FLP_CONFIGURATION_BACKEND_FILE_JSON_ENABLED defs then
    let path := "/" +:+ host uri +:+ path uri in
    make_unique (JsonBackend path)
  else
    throw (runtime_error "Back-end 'json' not enabled").

(** [getConsul], under its [#ifdef]. *)
Definition getConsul (uri : url) : M UniqueConfiguration :=
  if FLP_CONFIGURATION_BACKEND_CONSUL_ENABLED defs then
    make_unique (ConsulBackend (host uri) (port uri)) ≫= λ consul,
    (if negb (empty (path uri))
     then call_setPrefix consul (path uri)
     else mret tt) ≫= λ _,
    mret consul
  else
    throw (runtime_error "Back-end 'consul' not enabled").

(** The static [std::map] from scheme to constructor function. *)
Definition map : gmap string (url → M UniqueConfiguration) :=
  <["file" := getFile]> (<["json" := getJson]> (<["consul" := getConsul]> ∅)).

(** [ConfigurationFactory::getConfiguration]. *)
Definition getConfiguration (uri : string) : M UniqueConfiguration :=
  let string := uri in
  let parsedUrl := ParseHttpUrl string in
  if empty (protocol parsedUrl) then
    throw (runtime_error "Ill-formed URI")
  else
    match map !! protocol parsedUrl with
    | Some second => second parsedUrl
    | None => throw (runtime_error "Unrecognized backend")
    end.
End WithEnvironment.

(** A build with every backend, one with none, and backend classes
    that never throw. *)
Definition full_build : build := Build true true.
Definition minimal_build : build := Build false false.
Definition never : call → option string := λ _, None.

(** Backend classes of which one call throws: the constructor of the
    Consul backend (no agent to connect to), or its [setPrefix]. *)
Definition consul_unreachable : call → option string := λ c,
  match c with
  | construct (ConsulBackend _ _) => Some "connection refused"
  | _ => None
  end.

Definition prefix_rejected : call → option string := λ c,
  match c with
  | setPrefix _ _ => Some "no such prefix"
  | _ => None
  end.
End Factory.

(** ** Configuration.cxx *)
Module ConfigFile.

(** [boost::algorithm::starts_with(input, test)]. *)
Definition starts_with (input test : string) : bool :=
  String.prefix test input.

(** [boost::algorithm::ends_with(input, test)]: [test] is compared
    with the end of [input], last character first. *)
Definition ends_with (input test : string) : bool :=
  String.prefix (String.rev test) (String.rev input).

(** [&s[n]]: the C string that starts [n] characters into [s]. *)
Fixpoint advance (n : nat) (s : string) : string :=
  match n, s with
  | O, _ => s
  | S n', String _ s' => advance n' s'
  | S _, EmptyString => EmptyString
  end.

(** The two macros of the file. *)
Definition PREFIX_FILE : string := "file:".
Definition SUFFIX_FILE_INI : list string := [".ini"; ".cfg"].

(** [boost::property_tree::ini_parser::ini_parser_error], through its
    three accessors. [line()] is an [unsigned long]; 0 stands for
    "no line". *)
Record ini_parser_error : Type := Build_ini_parser_error {
  message : string;
  filename : string;
  line : N
}.

(** [boost::property_tree::ptree_error::what()]. *)
Record ptree_error : Type := Build_ptree_error { what : string }.

(** The text the [catch] block of [load] streams into [ss]. *)
Definition report (perr : ini_parser_error) : string :=
  if negb (line perr =? 0)%N then
    message perr +:+ " in " +:+ filename perr +:+ " line " +:+ pretty (line perr)
  else
    message perr +:+ " " +:+ filename perr.

Section WithPropertyTree.
(** [boost::property_tree::ptree] and the two library entry points
    used on it. [read_ini] reads the named file (the file system is
    part of the environment) and either fills the tree or throws. *)
Variable ptree : Type.
Variable read_ini : string → ptree → ini_parser_error + ptree.

(** [configFile], that is, the [pt] member behind [dPtr]. *)
Record configFile : Type := Build_configFile { pt : ptree }.

(* All exceptions of this class are [std::string] values: a method
   returns [inl] of the thrown string, or [inr] of its result. *)

(** The [for] loop over [suffix_ini] with the [throw] that follows
    it. *)
Fixpoint load_suffixes (suffix_ini : list string) (filename : string)
    (self : configFile) : string + configFile :=
  match suffix_ini with
  | suffix :: rest =>
      if ends_with filename suffix then
        match read_ini filename (pt self) with
        | inl perr => inl (report perr)
        | inr pt' => inr (Build_configFile pt')
        end
      else load_suffixes rest filename self
  | [] => inl "Invalid type in file name"
  end.

(** [configFile::load]; a null [path] is [None]. *)
Definition load (path : option string) (self : configFile)
  : string + configFile :=
  match path with
  | None => inl "Invalid argument"
  | Some path =>
      if starts_with path PREFIX_FILE then
        let filename := advance (String.length PREFIX_FILE) path in
        load_suffixes SUFFIX_FILE_INI filename self
      else inl "Invalid path prefix"
  end.

(** [configFile::getValue], one definition for the three overloads:
    [get] is [pt.get<T>(key)] at the overload's type. *)
Definition getValue {T : Type} (get : ptree → string → ptree_error + T)
    (key : string) (self : configFile) : string + T :=
  match get (pt self) key with
  | inl e => inl (what e)
  | inr value => inr value
  end.
End WithPropertyTree.

Arguments Build_configFile {ptree} _.
Arguments pt {ptree} _.
Arguments load_suffixes {ptree} _ _ _ _.
Arguments load {ptree} _ _ _.
Arguments getValue {ptree T} _ _ _.

(** A small environment to run [load] in: the tree is a list of
    key/value pairs, and the file system holds one well-formed file,
    one file with a syntax error on line 3, and nothing else. *)
Definition sample_read_ini (filename : string) (old : list (string * string))
  : ini_parser_error + list (string * string) :=
  if decide (filename = "/etc/app/config.ini") then
    inr [("app.name", "svc"); ("app.port", "5432")]
  else if decide (filename = "/etc/app/broken.cfg") then
    inl (Build_ini_parser_error "'=' character not found in line" filename 3)
  else
    inl (Build_ini_parser_error "cannot open file" filename 0).

(** [pt.get<std::string>(key)] for that environment: the value stored
    under [key], or the error of a missing key. *)
Definition sample_get (tree : list (string * string)) (key : string)
  : ptree_error + string :=
  match list_find (λ kv, kv.1 = key) tree with
  | Some (_, (_, value)) => inr value
  | None => inl (Build_ptree_error ("No such node (" +:+ key +:+ ")"))
  end.
End ConfigFile.

(** ** UriParser.hpp *)
Module UriParser.
Import http.

(** Modelled from the spec: a step of [http::ParseHttpUrl] below, whose
    header is not among the sources at hand. [break_at d s] is the part
    of [s] before the first [d], and the rest of [s] from that [d] on
    (empty when [s] has no [d]). *)
Fixpoint break_at (d : ascii) (s : string) : string * string :=
  match s with
  | EmptyString => (EmptyString, EmptyString)
  | String c s' =>
      if decide (c = d) then (EmptyString, s)
      else let (before, rest) := break_at d s' in (String c before, rest)
  end.

(** Modelled from the spec: the port of [http::ParseHttpUrl] below,
    read as the value of the leading decimal digits of [s]. *)
Fixpoint leading_digits (acc : Z) (s : string) : Z :=
  match s with
  | EmptyString => acc
  | String c s' =>
      match Ascii.is_nat c with
      | Some d => leading_digits (10 * acc + Z.of_nat d) s'
      | None => acc
      end
  end.

(** Modelled from the spec: [http::ParseHttpUrl] is declared in
    [UriParser/UriParser.hpp], which is not among the sources at hand.
    The spec gives the general form [scheme://host[:port]/path], says
    that the parse yields scheme, host, port and path and that a URI
    may have no scheme, and that "URI parsing treats the first path
    segment as host when no explicit authority delimiter is present",
    so that ["file:///tmp/x.ini"] leads to the backend path
    ["/tmp/x.ini"]. Hence: the scheme is the text before the first
    ["://"] and is empty without one; when what follows starts with
    ['/'], there is no authority and the first segment of the path
    stands in for it; the host (with an optional [:port]) runs up to
    the next ['/']; the path is the rest, from that ['/'] on, so that
    ["/" + host + path] in [getFile] puts host and path together again
    with the ['/'] between them. A URI without a port gets port 0. *)
Definition ParseHttpUrl (input : string) : url :=
  let (scheme, rest) :=
    match String.index 0 "://" input with
    | Some i => (String.substring 0 i input,
                 String.substring (i + 3) (String.length input - (i + 3)) input)
    | None => (EmptyString, input)
    end in
  let rest :=
    match rest with
    | String "/" first_segment_on => first_segment_on
    | _ => rest
    end in
  let (authority, path) := break_at "/" rest in
  let (host, colon_port) := break_at ":" authority in
  let port :=
    match colon_port with
    | String _ digits => leading_digits 0 digits
    | EmptyString => 0%Z
    end in
  Build_url scheme host path port.
End UriParser.

(** ** ConfigurationInterface.h: paths *)
Module Path.
(** The default separator; the header names it at
    [resetPathSeparator]: "Resets the separator to the default '/'". *)
Definition DEFAULT_SEPARATOR : ascii := "/"%char.

(** Modelled from the spec: the code that interprets paths is in the
    backend classes, which are not among the sources at hand. The spec
    calls a path "a string composed of segments separated by a
    configurable separator character". [fields sep s] are the pieces of
    [s] between the occurrences of [sep]. *)
Fixpoint fields (sep : ascii) (s : string) : list string :=
  match s with
  | EmptyString => [EmptyString]
  | String c s' =>
      if decide (c = sep) then EmptyString :: fields sep s'
      else match fields sep s' with
           | field :: rest => String c field :: rest
           | [] => [String c EmptyString]
           end
  end.

(** Modelled from the spec: the segments of a path, for the backend
    classes that are not among the sources at hand, are its non-empty
    fields, so that a prefix ["app"] followed by the path ["x"] names
    the location that the path ["app/x"] names without prefix, as the
    spec requires, and the empty prefix adds nothing. *)
Definition segments (sep : ascii) (s : string) : list string :=
  filter (λ field, field ≠ EmptyString) (fields sep s).

(** [with_separator sep path]: [path] written with [sep] where it has
    the default separator. *)
Fixpoint with_separator (sep : ascii) (path : string) : string :=
  match path with
  | EmptyString => EmptyString
  | String c path' =>
      String (if decide (c = DEFAULT_SEPARATOR) then sep else c)
             (with_separator sep path')
  end.

(** [occurs c s]: the character [c] occurs in [s]. *)
Fixpoint occurs (c : ascii) (s : string) : bool :=
  match s with
  | EmptyString => false
  | String c' s' => if decide (c' = c) then true else occurs c s'
  end.
End Path.

(** ** ConfigurationInterface.h: the contract of a back end *)
Module Backend.
Import Path.

(** Modelled from the spec: the conversion behind the default
    [getInt], whose body ([ConfigurationInterface.cxx]) is not among the
    sources at hand; the header names it, [boost::lexical_cast]. The
    spec asks for a strict parse: an optional sign, then one or more
    decimal digits and nothing else, with a value that fits [int].
    [all_digits acc s] is the value of [s] after [acc] when [s] has
    digits only. *)
Fixpoint all_digits (acc : Z) (s : string) : option Z :=
  match s with
  | EmptyString => Some acc
  | String c s' =>
      match Ascii.is_nat c with
      | Some d => all_digits (10 * acc + Z.of_nat d) s'
      | None => None
      end
  end.

Definition INT_MIN : Z := - 2 ^ 31.
Definition INT_MAX : Z := 2 ^ 31 - 1.

(** Modelled from the spec: the value of a non-empty run of digits. *)
Definition magnitude (s : string) : option Z :=
  if empty s then None else all_digits 0 s.

(** Modelled from the spec: a value is kept when it fits [int]. *)
Definition in_int_range (n : Z) : option Z :=
  if decide (INT_MIN ≤ n ≤ INT_MAX)%Z then Some n else None.

(** Modelled from the spec: the strict parse of an [int], for the
    missing body of [getInt]. *)
Definition lexical_cast_int (s : string) : option Z :=
  match s with
  | String "-" s' => magnitude s' ≫= λ n, in_int_range (- n)
  | String "+" s' => magnitude s' ≫= in_int_range
  | _ => magnitude s ≫= in_int_range
  end.

(** Modelled from the spec: what "a valid representation" of an
    integer is, for the missing body of [getInt], said without the
    parse above so that the parse can be checked against it.
    [all_decimal s]: [s] has decimal digits only. *)
Fixpoint all_decimal (s : string) : bool :=
  match s with
  | EmptyString => true
  | String c s' =>
      match Ascii.is_nat c with
      | Some _ => all_decimal s'
      | None => false
      end
  end.

(** Modelled from the spec: the number a run of digits denotes, each
    digit at its power of ten (for the missing body of [getInt]). *)
Fixpoint decimal_value (s : string) : Z :=
  match s with
  | EmptyString => 0
  | String c s' =>
      Z.of_nat (default 0 (Ascii.is_nat c)) * 10 ^ Z.of_nat (String.length s')
      + decimal_value s'
  end.

(** Modelled from the spec: [s] is a numeral for [n]: one or more
    digits and nothing else, denoting [n] (for the missing body of
    [getInt]). *)
Definition numeral (s : string) (n : Z) : Prop :=
  s ≠ EmptyString ∧ all_decimal s = true ∧ n = decimal_value s.

(** Modelled from the spec: [text] is "a valid representation" of the
    [int] [n] (for the missing body of [getInt]): a numeral, with an
    optional sign in front, for a number that fits [int]. *)
Definition represents_int (text : string) (n : Z) : Prop :=
  (INT_MIN ≤ n ≤ INT_MAX)%Z
  ∧ (numeral text n
     ∨ (∃ s, text = String "+" s ∧ numeral s n)
     ∨ (∃ s m, text = String "-" s ∧ numeral s m ∧ n = (- m)%Z)).

(** Modelled from the spec: the "conversion error" of the missing
    bodies of [getInt] and [getFloat]; with [boost::lexical_cast] it
    is [bad_lexical_cast]. It carries the text that was rejected. *)
Inductive exception : Type :=
| bad_lexical_cast (source : string).

Section WithDouble.
(** Floating point numbers and their two conversions are left
    open. *)
Variable double : Type.
Variable lexical_cast_double : string → option double.
Variable to_string_double : double → string.

(** Modelled from the spec: the backend classes are not among the
    sources at hand. A backend instance "owns its connection/handle to
    the underlying medium, its current prefix, and its current
    separator". The medium is a finite map from locations (lists of
    segments) to strings. *)
Record instance : Type := Build_instance {
  store : gmap (list string) string;
  prefix : string;
  separator : ascii
}.

(** Modelled from the spec: an instance of a (missing) backend class
    that nothing was written to, with no prefix and the default
    separator. *)
Definition fresh : instance :=
  Build_instance ∅ EmptyString DEFAULT_SEPARATOR.

(** Modelled from the spec: the location a path addresses in a
    (missing) backend class. The
    prefix is "prepended to every path" and read with the default
    separator; the path is read with the current separator. *)
Definition location (self : instance) (path : string) : list string :=
  segments DEFAULT_SEPARATOR (prefix self) ++ segments (separator self) path.

(** Modelled from the spec: [putString], pure virtual in the header,
    "stores a string at path". *)
Definition putString (path value : string) (self : instance) : instance :=
  Build_instance (<[location self path := value]> (store self))
                 (prefix self) (separator self).

(** Modelled from the spec: [getString], pure virtual in the header,
    "returns the stored string, or an empty result if the path does
    not exist". The result type has no
    error case: absence is [None]. *)
Definition getString (path : string) (self : instance) : option string :=
  store self !! location self path.

(** Modelled from the spec: [exists], whose body is not among the
    sources at hand, "reports whether a value is present at path". *)
Definition exists_ (path : string) (self : instance) : bool :=
  match getString path self with
  | Some _ => true
  | None => false
  end.

(** Modelled from the spec: [setPrefix], pure virtual in the header,
    "sets a path prefix applied to all subsequent put/get calls on
    this instance". *)
Definition setPrefix (prefix : string) (self : instance) : instance :=
  Build_instance (store self) prefix (separator self).

(** Modelled from the spec: [setPathSeparator], pure virtual in the
    header, "overrides/resets the separator used to interpret paths
    passed to put/get". *)
Definition setPathSeparator (separator : ascii) (self : instance) : instance :=
  Build_instance (store self) (prefix self) separator.

(** Modelled from the spec: back to the default separator, for the
    missing backend classes. *)
Definition resetPathSeparator (self : instance) : instance :=
  Build_instance (store self) (prefix self) DEFAULT_SEPARATOR.

(** Modelled from the spec: the missing body of [putInt]: "convert
    the typed value to its canonical string form, then call
    putString". *)
Definition putInt (path : string) (value : Z) (self : instance) : instance :=
  putString path (pretty value) self.

(** Modelled from the spec: the same for a floating point value, for
    the missing body of [putFloat]. *)
Definition putFloat (path : string) (value : double) (self : instance)
  : instance :=
  putString path (to_string_double value) self.

(** Modelled from the spec: the missing bodies of [getInt] and
    [getFloat]: "call getString; if present, attempt a
    strict numeric parse; fail with a conversion error if the stored
    string is not a valid representation of the requested type;
    otherwise return the parsed value wrapped in the optional, or an
    empty optional if the key was absent". *)
Definition get_converted {T : Type} (lexical_cast : string → option T)
    (path : string) (self : instance) : exception + option T :=
  match getString path self with
  | None => inr None
  | Some text =>
      match lexical_cast text with
      | Some value => inr (Some value)
      | None => inl (bad_lexical_cast text)
      end
  end.

(** Modelled from the spec: the missing bodies of [getInt] and
    [getFloat] are that scheme at their types. *)
Definition getInt : string → instance → exception + option Z :=
  get_converted lexical_cast_int.

Definition getFloat : string → instance → exception + option double :=
  get_converted lexical_cast_double.

(** The calls of the interface that change an instance. *)
Inductive operation : Type :=
| PutString (path value : string)
| PutInt (path : string) (value : Z)
| PutFloat (path : string) (value : double)
| SetPrefix (prefix : string)
| SetPathSeparator (separator : ascii)
| ResetPathSeparator.

Definition apply (self : instance) (o : operation) : instance :=
  match o with
  | PutString path value => putString path value self
  | PutInt path value => putInt path value self
  | PutFloat path value => putFloat path value self
  | SetPrefix prefix => setPrefix prefix self
  | SetPathSeparator separator => setPathSeparator separator self
  | ResetPathSeparator => resetPathSeparator self
  end.

(** The location an operation writes to on [self], if any. *)
Definition target (self : instance) (o : operation) : option (list string) :=
  match o with
  | PutString path _ | PutInt path _ | PutFloat path _ =>
      Some (location self path)
  | _ => None
  end.

(** [history self ops]: the instance after the calls [ops], made in
    order on [self], and the locations they wrote to. *)
Fixpoint history (self : instance) (ops : list operation)
  : instance * list (list string) :=
  match ops with
  | [] => (self, [])
  | o :: ops' =>
      let (final, written) := history (apply self o) ops' in
      (final, option_list (target self o) ++ written)
  end.
End WithDouble.

(** A stand-in for the floating point type where an example needs
    one: a type without numerals, so that every conversion to it
    fails. *)
Definition no_double : Type := unit.
Definition no_lexical_cast : string → option no_double := λ _, None.
Definition no_to_string : no_double → string := λ _, EmptyString.

(** A second stand-in, with numerals: decimal fractions, read exactly
    as [mantissa / 10 ^ scale]. Rounding to the machine format is left
    out. *)
Record decimal : Type := Build_decimal { mantissa : Z; scale : nat }.

(** The digits before the decimal point, and those after it if there
    is one. *)
Fixpoint before_point (s : string) : string * option string :=
  match s with
  | EmptyString => (EmptyString, None)
  | String c s' =>
      if decide (c = "."%char) then (EmptyString, Some s')
      else let (whole, fraction) := before_point s' in (String c whole, fraction)
  end.

Definition unsigned_decimal (s : string) : option decimal :=
  let (whole, fraction) := before_point s in
  match fraction with
  | None => magnitude whole ≫= λ w, Some (Build_decimal w 0)
  | Some digits =>
      magnitude whole ≫= λ w,
      magnitude digits ≫= λ f,
      Some (Build_decimal (w * 10 ^ Z.of_nat (String.length digits) + f)
                          (String.length digits))
  end.

(** A strict parse of a decimal fraction: an optional sign, digits,
    and optionally a point and more digits; nothing else. *)
Definition lexical_cast_decimal (s : string) : option decimal :=
  match s with
  | String "-" s' =>
      unsigned_decimal s' ≫= λ d, Some (Build_decimal (- mantissa d) (scale d))
  | String "+" s' => unsigned_decimal s'
  | _ => unsigned_decimal s
  end.
End Backend.

(** ** Tree.h and the recursive getters *)
Module Tree.
Import Path.

(** Modelled from the spec: [Tree::Node] is declared in
    [Configuration/Tree.h], which is not among the sources at hand.
    "A node has an optional scalar value and a mapping from
    child-segment-name to child Node". *)
#[warnings="-register-all"]
Inductive Node : Type :=
| Build_Node (value : option string) (children : list (string * Node)).

(** Modelled from the spec: the two parts of a node of the missing
    [Tree.h]. *)
Definition value (n : Node) : option string :=
  match n with Build_Node v _ => v end.

Definition children (n : Node) : list (string * Node) :=
  match n with Build_Node _ cs => cs end.

(** Modelled from the spec: a node of the missing [Tree.h] with a
    value and no children, and one with neither. *)
Definition leaf (v : string) : Node := Build_Node (Some v) [].
Definition bare : Node := Build_Node None [].

(** Modelled from the spec: the "mapping from child-segment-name to
    child Node" of the missing [Tree.h], read at [name]. *)
Fixpoint child (name : string) (cs : list (string * Node)) : option Node :=
  match cs with
  | [] => None
  | (k, n) :: cs' => if decide (k = name) then Some n else child name cs'
  end.

(** Modelled from the spec: the step "walk/create" of the tree
    assembly, whose code is not among the sources at hand.
    [with_child f name cs] is [f] applied to the child called [name],
    which is created without value or children when it is missing. *)
Fixpoint with_child (f : Node → Node) (name : string)
    (cs : list (string * Node)) : list (string * Node) :=
  match cs with
  | [] => [(name, f bare)]
  | (k, n) :: cs' =>
      if decide (k = name) then (k, f n) :: cs'
      else (k, n) :: with_child f name cs'
  end.

(** Modelled from the spec: "walk/create the path of intermediate
    nodes (no scalar value, only child links) for all segments but the
    last; attach the scalar value to the node denoted by the final
    segment". *)
Fixpoint attach (key : list string) (v : string) (n : Node) : Node :=
  match key with
  | [] => Build_Node (Some v) (children n)
  | name :: key' =>
      Build_Node (value n) (with_child (attach key' v) name (children n))
  end.

(** Modelled from the spec: retrieval from a tree of the missing
    [Tree.h]: the node reached from [n] along [key]. *)
Fixpoint descend (key : list string) (n : Node) : option Node :=
  match key with
  | [] => Some n
  | name :: key' => child name (children n) ≫= descend key'
  end.

(** Modelled from the spec: retrieval from a tree of the missing
    [Tree.h]: the scalar value stored at [key]. *)
Definition get (key : list string) (n : Node) : option string :=
  descend key n ≫= value.

(** Modelled from the spec: the tree assembly, whose code is not
    among the sources at hand. The tree of a flat set of (full key,
    value) pairs: "split each full key into its segments using the
    separator" and attach its value there. *)
Definition keyValuesToTree (sep : ascii) (pairs : list (string * string))
  : Node :=
  foldl (λ tree kv, attach (segments sep kv.1) kv.2 tree) bare pairs.

(** Modelled from the spec: the test "at or below path" of the
    recursive getters, whose code is in the missing backend classes. *)
Definition below (sep : ascii) (path key : string) : bool :=
  bool_decide (segments sep path `prefix_of` segments sep key).

(** Modelled from the spec: [getRecursiveMap], pure virtual in the
    header, "fetches every key at or below path", "flattened to
    full-path→value pairs". [stored] is what the medium holds. *)
Definition getRecursiveMap (sep : ascii) (stored : list (string * string))
    (path : string) : list (string * string) :=
  filter (λ kv, below sep path kv.1 = true) stored.

(** Modelled from the spec: [getRecursive], pure virtual in the
    header, makes the same fetch and returns "the subtree rooted at a
    queried path". *)
Definition getRecursive (sep : ascii) (stored : list (string * string))
    (path : string) : Node :=
  default bare
    (descend (segments sep path)
             (keyValuesToTree sep (getRecursiveMap sep stored path))).

(** The stored pairs of the running example, and the same with a
    value at ["app/db"] itself. *)
Definition sample_stored : list (string * string) :=
  [("app/db/host", "localhost"); ("app/db/port", "5432"); ("app/name", "svc")].

Definition sample_nested : list (string * string) :=
  ("app/db", "primary") :: sample_stored.
End Tree.

(** * Properties *)

(** ** Strings *)

Lemma empty_true (s : string) : empty s = true ↔ s = "".
Proof. destruct s; simpl; split; congruence. Qed.

Lemma empty_false (s : string) : empty s = false ↔ s ≠ "".
Proof. destruct s; simpl; split; congruence. Qed.

(** ** The factory *)
Section FactoryProperties.
Import http Factory.

Variable ParseHttpUrl : string → url.
Variable defs : build.
Variable raises : call → option string.

Abbreviation getConfiguration := (Factory.getConfiguration ParseHttpUrl defs raises).
Abbreviation make_unique := (Factory.make_unique raises).

(** The outcome of constructing one object and handing it out. *)
Lemma run_make_unique (b : Backend) :
  run (make_unique b) =
  ([construct b],
   match raises (construct b) with
   | Some what => inl (backend_failure (construct b) what)
   | None => inr (owning b)
   end).
Proof.
  unfold run, Factory.make_unique, mbind, M_bind, perform.
  destruct (raises (construct b)); reflexivity.
Qed.

(** The three entries of the dispatch table, and nothing else. *)
Lemma map_file : map defs raises !! "file" = Some (getFile raises).
Proof. unfold map. by rewrite lookup_insert_eq. Qed.

Lemma map_json : map defs raises !! "json" = Some (getJson defs raises).
Proof. unfold map. rewrite lookup_insert_ne by done. by rewrite lookup_insert_eq. Qed.

Lemma map_consul : map defs raises !! "consul" = Some (getConsul defs raises).
Proof.
  unfold map. do 2 (rewrite lookup_insert_ne by done). by rewrite lookup_insert_eq.
Qed.

Lemma map_other (scheme : string) :
  scheme ∉ ["file"; "json"; "consul"] → map defs raises !! scheme = None.
Proof.
  intros Hnot. unfold map.
  rewrite !lookup_insert_ne, lookup_empty; [done|..];
    intros <-; apply Hnot; rewrite !elem_of_cons; auto.
Qed.

(** A URI with a known scheme goes to that scheme's function. *)
Lemma getConfiguration_dispatch (uri scheme : string) second :
  protocol (ParseHttpUrl uri) = scheme →
  scheme ≠ "" →
  map defs raises !! scheme = Some second →
  getConfiguration uri = second (ParseHttpUrl uri).
Proof.
  intros Hscheme Hne Hmap. unfold Factory.getConfiguration.
  rewrite Hscheme. apply empty_false in Hne. rewrite Hne, Hmap. reflexivity.
Qed.

Lemma getConfiguration_file (uri : string) :
  protocol (ParseHttpUrl uri) = "file" →
  run (getConfiguration uri) =
  run (make_unique
         (FileBackend ("/" +:+ host (ParseHttpUrl uri) +:+ path (ParseHttpUrl uri)))).
Proof.
  intros Hscheme.
  by rewrite (getConfiguration_dispatch uri "file" _ Hscheme ltac:(done) map_file).
Qed.
Lemma getConfiguration_json (uri : string) :
  protocol (ParseHttpUrl uri) = "json" →
  getConfiguration uri = getJson defs raises (ParseHttpUrl uri).
Proof.
  intros Hscheme.
  exact (getConfiguration_dispatch uri "json" _ Hscheme ltac:(done) map_json).
Qed.

Lemma getConfiguration_consul (uri : string) :
  protocol (ParseHttpUrl uri) = "consul" →
  getConfiguration uri = getConsul defs raises (ParseHttpUrl uri).
Proof.
  intros Hscheme.
  exact (getConfiguration_dispatch uri "consul" _ Hscheme ltac:(done) map_consul).
Qed.

(** A pointer that comes out of [make_unique] is never null, and so
    is every pointer that comes out of one of the three functions of
    the table. *)
Lemma make_unique_not_null (b : Backend) (log log' : list call) :
  make_unique b log ≠ (log', inr nullptr).
Proof.
  unfold Factory.make_unique, mbind, M_bind, perform.
  destruct (raises (construct b)); discriminate.
Qed.

Lemma getConsul_not_null (uri : url) (log log' : list call) :
  getConsul defs raises uri log ≠ (log', inr nullptr).
Proof.
  unfold getConsul, throw.
  destruct (FLP_CONFIGURATION_BACKEND_CONSUL_ENABLED defs); [|discriminate].
  unfold Factory.make_unique, mbind, M_bind, perform, call_setPrefix, perform, mret, M_ret.
  destruct (raises (construct _)); [discriminate|].
  destruct (negb _); [destruct (raises (setPrefix _ _))|]; discriminate.
Qed.

(** C1. Whatever the URI: when its parse has no scheme,
    [getConfiguration] throws the runtime error "Ill-formed URI"; when
    the scheme is there but is none of file, json and consul, it throws
    the runtime error "Unrecognized backend"; in both cases before any
    backend is touched. The two errors differ, and no call ever returns
    a null pointer. *)
Theorem getConfiguration_errors (uri : string) :
  (protocol (ParseHttpUrl uri) = "" →
   run (getConfiguration uri) = ([], inl (runtime_error "Ill-formed URI")))
  ∧ (protocol (ParseHttpUrl uri) ≠ "" →
     protocol (ParseHttpUrl uri) ∉ ["file"; "json"; "consul"] →
     run (getConfiguration uri) = ([], inl (runtime_error "Unrecognized backend")))
  ∧ runtime_error "Ill-formed URI" ≠ runtime_error "Unrecognized backend"
  ∧ (∀ log, run (getConfiguration uri) ≠ (log, inr nullptr)).
Proof.
  split; [|split; [|split]].
  - intros Hnone. unfold run, Factory.getConfiguration.
    apply empty_true in Hnone. by rewrite Hnone.
  - intros Hsome Hother. unfold run, Factory.getConfiguration.
    apply empty_false in Hsome. by rewrite Hsome, (map_other _ Hother).
  - discriminate.
  - intros log. unfold run, Factory.getConfiguration.
    destruct (empty _); [discriminate|].
    destruct (decide (protocol (ParseHttpUrl uri) = "file")) as [->|Hfile].
    { rewrite map_file. apply make_unique_not_null. }
    destruct (decide (protocol (ParseHttpUrl uri) = "json")) as [->|Hjson].
    { rewrite map_json. unfold getJson.
      destruct (FLP_CONFIGURATION_BACKEND_FILE_JSON_ENABLED defs);
        [apply make_unique_not_null | discriminate]. }
    destruct (decide (protocol (ParseHttpUrl uri) = "consul")) as [->|Hconsul].
    { rewrite map_consul. apply getConsul_not_null. }
    rewrite map_other; [discriminate|].
    rewrite !elem_of_cons, elem_of_nil. tauto.
Qed.

(** For every URI whose scheme is file, and for every URI whose scheme
    is json when that backend is built in, the one object the factory
    constructs is a file (or JSON) backend on the path
    ["/" + host + path] of the parsed URI, and that object is what the
    caller gets unless its constructor throws. *)
Lemma file_json_path (uri : string) :
  let parsed := ParseHttpUrl uri in
  let filePath := "/" +:+ host parsed +:+ path parsed in
  (protocol parsed = "file" →
   run (getConfiguration uri) =
   ([construct (FileBackend filePath)],
    match raises (construct (FileBackend filePath)) with
    | Some what => inl (backend_failure (construct (FileBackend filePath)) what)
    | None => inr (owning (FileBackend filePath))
    end))
  ∧ (protocol parsed = "json" →
     FLP_CONFIGURATION_BACKEND_FILE_JSON_ENABLED defs = true →
     run (getConfiguration uri) =
     ([construct (JsonBackend filePath)],
      match raises (construct (JsonBackend filePath)) with
      | Some what => inl (backend_failure (construct (JsonBackend filePath)) what)
      | None => inr (owning (JsonBackend filePath))
      end)).
Proof.
  intros parsed filePath. split.
  - intros Hscheme. rewrite (getConfiguration_file uri Hscheme).
    apply run_make_unique.
  - intros Hscheme Henabled. rewrite (getConfiguration_json uri Hscheme).
    unfold getJson. rewrite Henabled. apply run_make_unique.
Qed.

(** C4. A json URI in a build without the JSON backend, and a consul
    URI in a build without the Consul backend, make [getConfiguration]
    throw the runtime error "Back-end '...' not enabled"; no backend of
    any kind is constructed on the way. *)
Theorem getConfiguration_not_enabled (uri : string) :
  (protocol (ParseHttpUrl uri) = "json" →
   FLP_CONFIGURATION_BACKEND_FILE_JSON_ENABLED defs = false →
   run (getConfiguration uri) =
   ([], inl (runtime_error "Back-end 'json' not enabled")))
  ∧ (protocol (ParseHttpUrl uri) = "consul" →
     FLP_CONFIGURATION_BACKEND_CONSUL_ENABLED defs = false →
     run (getConfiguration uri) =
     ([], inl (runtime_error "Back-end 'consul' not enabled"))).
Proof.
  split; intros Hscheme Hdisabled.
  - rewrite (getConfiguration_json uri Hscheme).
    unfold getJson. by rewrite Hdisabled.
  - rewrite (getConfiguration_consul uri Hscheme).
    unfold getConsul. by rewrite Hdisabled.
Qed.

(** C5. For a consul URI in a build with the Consul backend, the
    factory constructs a Consul backend from the host and the port of
    the URI; when the constructor returns, it calls [setPrefix] on that
    object with the path of the URI if the path is not empty, and makes
    no call at all if it is empty. So [setPrefix] is called exactly when
    the path is non-empty (and the object exists), and only with that
    path. *)
Theorem getConfiguration_consul_prefix (uri : string) :
  let parsed := ParseHttpUrl uri in
  let consul := ConsulBackend (host parsed) (port parsed) in
  protocol parsed = "consul" →
  FLP_CONFIGURATION_BACKEND_CONSUL_ENABLED defs = true →
  run (getConfiguration uri) =
    match raises (construct consul) with
    | Some what => ([construct consul], inl (backend_failure (construct consul) what))
    | None =>
        if empty (path parsed) then ([construct consul], inr (owning consul))
        else ([construct consul; setPrefix consul (path parsed)],
              match raises (setPrefix consul (path parsed)) with
              | Some what =>
                  inl (backend_failure (setPrefix consul (path parsed)) what)
              | None => inr (owning consul)
              end)
    end
  ∧ (∀ b prefix,
       setPrefix b prefix ∈ (run (getConfiguration uri)).1 ↔
       path parsed ≠ "" ∧ raises (construct consul) = None
       ∧ b = consul ∧ prefix = path parsed).
Proof.
  intros parsed consul Hscheme Henabled.
  assert (run (getConfiguration uri) =
    match raises (construct consul) with
    | Some what => ([construct consul], inl (backend_failure (construct consul) what))
    | None =>
        if empty (path parsed) then ([construct consul], inr (owning consul))
        else ([construct consul; setPrefix consul (path parsed)],
              match raises (setPrefix consul (path parsed)) with
              | Some what =>
                  inl (backend_failure (setPrefix consul (path parsed)) what)
              | None => inr (owning consul)
              end)
    end) as Hrun.
  { rewrite (getConfiguration_consul uri Hscheme).
    unfold run, getConsul. rewrite Henabled.
    unfold Factory.make_unique, mbind, M_bind, perform, call_setPrefix, perform,
      mret, M_ret.
    fold parsed. fold consul.
    destruct (raises (construct consul)); [reflexivity|].
    destruct (empty (path parsed)); simpl; [reflexivity|].
    destruct (raises (setPrefix consul (path parsed))); reflexivity. }
  split; [exact Hrun|].
  intros b prefix. rewrite Hrun.
  destruct (raises (construct consul)) eqn:Hctor; simpl.
  { rewrite list_elem_of_singleton. split; [discriminate|]. intros (_ & ? & _). discriminate. }
  destruct (empty (path parsed)) eqn:Hempty; simpl.
  - apply empty_true in Hempty. rewrite list_elem_of_singleton.
    split; [discriminate|]. intros (? & _). contradiction.
  - apply empty_false in Hempty. rewrite !elem_of_cons, elem_of_nil.
    split.
    + intros [?|[Heq|[]]]; [discriminate|]. by simplify_eq.
    + intros (_ & _ & -> & ->). right. by left.
Qed.

(** C10. For a file URI the factory constructs a file backend and
    hands it out, whatever the build switches are: the outcome is the
    same in every build, and it is never a runtime error of the factory
    (in particular never "Back-end ... not enabled"); the only way to
    fail is that the constructor of the file backend itself throws. *)
Theorem getConfiguration_file_unconditional (uri : string) :
  let parsed := ParseHttpUrl uri in
  let file := FileBackend ("/" +:+ host parsed +:+ path parsed) in
  protocol parsed = "file" →
  (∀ defs' : build,
     run (Factory.getConfiguration ParseHttpUrl defs' raises uri) =
     run (getConfiguration uri))
  ∧ (raises (construct file) = None →
     run (getConfiguration uri) = ([construct file], inr (owning file)))
  ∧ (∀ log what, run (getConfiguration uri) ≠ (log, inl (runtime_error what))).
Proof.
  intros parsed file Hscheme. split; [|split].
  - intros defs'. unfold run, Factory.getConfiguration.
    unfold parsed in Hscheme. rewrite Hscheme. simpl. unfold map. by rewrite !lookup_insert_eq.
  - intros Hok. rewrite (getConfiguration_file uri Hscheme), run_make_unique.
    fold parsed. fold file. by rewrite Hok.
  - intros log what. rewrite (getConfiguration_file uri Hscheme), run_make_unique.
    destruct (raises _); congruence.
Qed.
End FactoryProperties.

(** *** The factory on concrete URIs *)
Section FactoryExamples.
Import http Factory.

(** C2. Whatever the parser, the build and the backend classes: for a
    URI whose scheme is file, and for one whose scheme is json when
    that backend is built in, the one object the factory constructs is
    a file (or JSON) backend on the path ["/" + host + path] of the
    parsed URI, and that object is what the caller gets unless its
    constructor throws. For ["file:///tmp/x.ini"] that path is
    ["/tmp/x.ini"] exactly when host and path of the parse make up
    ["tmp/x.ini"]; they do, the first path segment being the host, and
    the file backend is constructed on ["/tmp/x.ini"]. *)
Theorem getConfiguration_file_path :
  (∀ (ParseHttpUrl : string → url) (defs : build) (raises : call → option string)
     (uri : string),
     let parsed := ParseHttpUrl uri in
     let filePath := "/" +:+ host parsed +:+ path parsed in
     (protocol parsed = "file" →
      run (getConfiguration ParseHttpUrl defs raises uri) =
      ([construct (FileBackend filePath)],
       match raises (construct (FileBackend filePath)) with
       | Some what => inl (backend_failure (construct (FileBackend filePath)) what)
       | None => inr (owning (FileBackend filePath))
       end))
     ∧ (protocol parsed = "json" →
        FLP_CONFIGURATION_BACKEND_FILE_JSON_ENABLED defs = true →
        run (getConfiguration ParseHttpUrl defs raises uri) =
        ([construct (JsonBackend filePath)],
         match raises (construct (JsonBackend filePath)) with
         | Some what => inl (backend_failure (construct (JsonBackend filePath)) what)
         | None => inr (owning (JsonBackend filePath))
         end)))
  ∧ (∀ (ParseHttpUrl : string → url) (defs : build) (raises : call → option string),
       protocol (ParseHttpUrl "file:///tmp/x.ini") = "file" →
       (run (getConfiguration ParseHttpUrl defs raises "file:///tmp/x.ini")).1
       = [construct (FileBackend "/tmp/x.ini")]
       ↔ host (ParseHttpUrl "file:///tmp/x.ini")
         +:+ path (ParseHttpUrl "file:///tmp/x.ini") = "tmp/x.ini")
  ∧ (∀ defs : build,
       UriParser.ParseHttpUrl "file:///tmp/x.ini" = Build_url "file" "tmp" "/x.ini" 0
       ∧ run (getConfiguration UriParser.ParseHttpUrl defs never "file:///tmp/x.ini")
         = ([construct (FileBackend "/tmp/x.ini")],
            inr (owning (FileBackend "/tmp/x.ini")))).
Proof.
  split; [|split].
  - intros ParseHttpUrl defs raises uri. apply file_json_path.
  - intros ParseHttpUrl defs raises Hscheme.
    rewrite (proj1 (file_json_path ParseHttpUrl defs raises "file:///tmp/x.ini")
               Hscheme).
    simpl. split.
    + intros [= Hpath]. exact Hpath.
    + intros Hpath.
      change ([construct
                 (FileBackend
                    (String "/" (host (ParseHttpUrl "file:///tmp/x.ini")
                                 +:+ path (ParseHttpUrl "file:///tmp/x.ini"))))]
              = [construct (FileBackend "/tmp/x.ini")]).
      by rewrite Hpath.
  - intros defs. split; [reflexivity|].
    by rewrite (proj1 (file_json_path UriParser.ParseHttpUrl defs never
                         "file:///tmp/x.ini")).
Qed.

Lemma getConfiguration_file_path_witness :
  run (getConfiguration UriParser.ParseHttpUrl full_build never
         "file://etc/app/config.ini")
  = ([construct (FileBackend "/etc/app/config.ini")],
     inr (owning (FileBackend "/etc/app/config.ini")))
  ∧ run (getConfiguration UriParser.ParseHttpUrl full_build never
           "json://etc/app/config.json")
    = ([construct (JsonBackend "/etc/app/config.json")],
       inr (owning (JsonBackend "/etc/app/config.json"))).
Proof.
  split.
  - apply (proj1 (proj1 getConfiguration_file_path UriParser.ParseHttpUrl
                    full_build never "file://etc/app/config.ini")).
    reflexivity.
  - apply (proj2 (proj1 getConfiguration_file_path UriParser.ParseHttpUrl
                    full_build never "json://etc/app/config.json"));
      reflexivity.
Defined.

Lemma getConfiguration_errors_witness :
  run (getConfiguration UriParser.ParseHttpUrl full_build never "not-a-uri")
  = ([], inl (runtime_error "Ill-formed URI"))
  ∧ run (getConfiguration UriParser.ParseHttpUrl full_build never "ftp://host/x")
    = ([], inl (runtime_error "Unrecognized backend")).
Proof.
  split.
  - apply (proj1 (getConfiguration_errors UriParser.ParseHttpUrl full_build never
                    "not-a-uri")).
    reflexivity.
  - apply (proj1 (proj2 (getConfiguration_errors UriParser.ParseHttpUrl full_build
                           never "ftp://host/x"))).
    + discriminate.
    + change (protocol (UriParser.ParseHttpUrl "ftp://host/x")) with "ftp".
      rewrite !elem_of_cons, elem_of_nil.
      intros [?|[?|[?|[]]]]; discriminate.
Defined.

Lemma getConfiguration_not_enabled_witness :
  run (getConfiguration UriParser.ParseHttpUrl minimal_build never
         "json:///etc/app/config.json")
  = ([], inl (runtime_error "Back-end 'json' not enabled"))
  ∧ run (getConfiguration UriParser.ParseHttpUrl minimal_build never
           "consul://host:8500/prefix")
    = ([], inl (runtime_error "Back-end 'consul' not enabled")).
Proof.
  split.
  - apply (proj1 (getConfiguration_not_enabled UriParser.ParseHttpUrl minimal_build
                    never "json:///etc/app/config.json")); reflexivity.
  - apply (proj2 (getConfiguration_not_enabled UriParser.ParseHttpUrl minimal_build
                    never "consul://host:8500/prefix")); reflexivity.
Defined.

Lemma getConfiguration_consul_prefix_witness :
  run (getConfiguration UriParser.ParseHttpUrl full_build never
         "consul://host:8500/prefix")
  = ([construct (ConsulBackend "host" 8500);
      setPrefix (ConsulBackend "host" 8500) "/prefix"],
     inr (owning (ConsulBackend "host" 8500)))
  ∧ run (getConfiguration UriParser.ParseHttpUrl full_build never "consul://host:8500")
    = ([construct (ConsulBackend "host" 8500)],
       inr (owning (ConsulBackend "host" 8500))).
Proof.
  split.
  - apply (proj1 (getConfiguration_consul_prefix UriParser.ParseHttpUrl full_build
                    never "consul://host:8500/prefix" eq_refl eq_refl)).
  - apply (proj1 (getConfiguration_consul_prefix UriParser.ParseHttpUrl full_build
                    never "consul://host:8500" eq_refl eq_refl)).
Defined.

Lemma getConfiguration_file_unconditional_witness :
  run (getConfiguration UriParser.ParseHttpUrl minimal_build never
         "file://etc/app/config.ini")
  = ([construct (FileBackend "/etc/app/config.ini")],
     inr (owning (FileBackend "/etc/app/config.ini"))).
Proof.
  apply (proj1 (proj2 (getConfiguration_file_unconditional UriParser.ParseHttpUrl
                         minimal_build never "file://etc/app/config.ini" eq_refl))).
  reflexivity.
Defined.
End FactoryExamples.

(** ** The INI loader *)
Section ConfigFileProperties.
Import ConfigFile.

Lemma app_cons (c : ascii) (s t : string) : String c s +:+ t = String c (s +:+ t).
Proof. reflexivity. Qed.

Lemma app_empty_r (s : string) : s +:+ "" = s.
Proof. induction s as [|c s IH]; [done|]. by rewrite app_cons, IH. Qed.

Lemma app_assoc' (s t u : string) : (s +:+ t) +:+ u = s +:+ t +:+ u.
Proof. induction s as [|c s IH]; [done|]. by rewrite !app_cons, IH. Qed.

Lemma rev_app_spec (s t : string) : String.rev_app s t = String.rev s +:+ t.
Proof.
  unfold String.rev. revert t.
  induction s as [|c s IH]; intros t; simpl; [done|].
  rewrite (IH (String c t)), (IH (String c "")). by rewrite app_assoc'.
Qed.

Lemma rev_cons (c : ascii) (s : string) :
  String.rev (String c s) = String.rev s +:+ String c "".
Proof. unfold String.rev at 1. simpl. apply rev_app_spec. Qed.

Lemma rev_append (s t : string) :
  String.rev (s +:+ t) = String.rev t +:+ String.rev s.
Proof.
  induction s as [|c s IH].
  - by rewrite app_empty_r.
  - by rewrite app_cons, !rev_cons, IH, app_assoc'.
Qed.

Lemma rev_involutive (s : string) : String.rev (String.rev s) = s.
Proof.
  induction s as [|c s IH]; [done|].
  by rewrite rev_cons, rev_append, IH.
Qed.

(** What the two boost predicates decide. *)
Lemma prefix_spec (p s : string) :
  String.prefix p s = true ↔ ∃ rest, s = p +:+ rest.
Proof.
  revert s. induction p as [|c p IH]; intros s.
  - destruct s; simpl; split; eauto.
  - destruct s as [|c' s]; simpl.
    + split; [discriminate|]. intros [rest Hrest]. discriminate.
    + destruct (ascii_dec c c') as [->|Hne].
      * rewrite IH. split; intros [rest Hrest]; exists rest.
        -- by rewrite app_cons, Hrest.
        -- rewrite app_cons in Hrest. congruence.
      * split; [discriminate|]. intros [rest Hrest].
        rewrite app_cons in Hrest. congruence.
Qed.

Lemma starts_with_spec (input test : string) :
  starts_with input test = true ↔ ∃ rest, input = test +:+ rest.
Proof. apply prefix_spec. Qed.

Lemma ends_with_spec (input test : string) :
  ends_with input test = true ↔ ∃ front, input = front +:+ test.
Proof.
  unfold ends_with. rewrite prefix_spec. split.
  - intros [rest Hrest]. exists (String.rev rest).
    rewrite <- (rev_involutive input), Hrest, rev_append.
    by rewrite rev_involutive.
  - intros [front ->]. exists (String.rev front). apply rev_append.
Qed.

Lemma advance_app (p rest : string) : advance (String.length p) (p +:+ rest) = rest.
Proof. induction p as [|c p IH]; [by destruct rest|]. by rewrite app_cons. Qed.

(** A suffix that starts with a dot cannot reach into ["file:"]: the
    whole path ends with it exactly when the file name does. *)
Lemma ends_with_after_prefix (name tail : string) :
  ends_with (PREFIX_FILE +:+ name) (String "." tail)
  = ends_with name (String "." tail).
Proof.
  apply eq_true_iff_eq. rewrite !ends_with_spec. split.
  - intros [front Hfront]. unfold PREFIX_FILE in Hfront.
    destruct front as [|c1 [|c2 [|c3 [|c4 [|c5 front]]]]];
      rewrite ?app_cons in Hfront; simplify_eq/=.
    by exists front.
  - intros [front ->]. exists (PREFIX_FILE +:+ front). by rewrite app_assoc'.
Qed.

(** [getValue] turns every error of the property tree, a missing key
    included, into a thrown string: this class has no empty result. *)
Lemma getValue_throws (ptree T : Type) (get : ptree → string → ptree_error + T)
    (key : string) (self : configFile ptree) (e : ptree_error) :
  get (pt self) key = inl e → getValue get key self = inl (what e).
Proof. intros Hget. unfold getValue. by rewrite Hget. Qed.

Lemma load_file (ptree : Type) (read_ini : string → ptree → ini_parser_error + ptree)
    (name : string) (self : configFile ptree) :
  load read_ini (Some ("file:" +:+ name)) self
  = load_suffixes read_ini SUFFIX_FILE_INI name self.
Proof.
  change "file:" with PREFIX_FILE. unfold load.
  assert (starts_with (PREFIX_FILE +:+ name) PREFIX_FILE = true) as ->
    by (apply starts_with_spec; eauto).
  by rewrite advance_app.
Qed.

(** C9. [load] lets through exactly the paths that begin with
    ["file:"] and end with [".ini"] or [".cfg"]: for those it runs the
    INI parser on the rest of the path after ["file:"], and the outcome
    is the parser's. A path that does not begin with ["file:"] makes it
    throw "Invalid path prefix"; one that does, but ends with neither
    suffix, makes it throw "Invalid type in file name". When the parser
    throws, the string thrown to the caller is the parser's message,
    then the file name, then the line number if the parser gave
    one. *)
Theorem load_accepts (ptree : Type)
    (read_ini : string → ptree → ini_parser_error + ptree)
    (path : string) (self : configFile ptree) :
  let begins := ∃ name, path = "file:" +:+ name in
  let ends := λ suffix : string, ∃ front, path = front +:+ suffix in
  (begins → ends ".ini" ∨ ends ".cfg" →
   load read_ini (Some path) self =
   match read_ini (advance 5 path) (pt self) with
   | inl perr => inl (report perr)
   | inr pt' => inr (Build_configFile pt')
   end)
  ∧ (¬ begins → load read_ini (Some path) self = inl "Invalid path prefix")
  ∧ (begins → ¬ ends ".ini" → ¬ ends ".cfg" →
     load read_ini (Some path) self = inl "Invalid type in file name")
  ∧ (∀ perr : ini_parser_error,
       (line perr ≠ 0%N →
        report perr
        = message perr +:+ " in " +:+ filename perr +:+ " line " +:+ pretty (line perr))
       ∧ (line perr = 0%N →
          report perr = message perr +:+ " " +:+ filename perr)).
Proof.
  intros begins ends.
  assert (∀ name tail, path = "file:" +:+ name →
          ends (String "." tail) ↔ ends_with name (String "." tail) = true)
    as Hends.
  { intros name tail ->. unfold ends.
    rewrite <- (ends_with_after_prefix name tail). symmetry. apply ends_with_spec. }
  split; [|split; [|split]].
  - intros [name Hname] Hsuffix.
    rewrite (Hends name "ini" Hname), (Hends name "cfg" Hname) in Hsuffix.
    subst path. rewrite (load_file _ read_ini name self).
    change (advance 5 ("file:" +:+ name)) with name. simpl.
    destruct (ends_with name ".ini"); [done|].
    destruct Hsuffix as [Hini|Hcfg]; [done|]. by rewrite Hcfg.
  - intros Hnot. unfold load.
    destruct (starts_with path PREFIX_FILE) eqn:Hstarts; [|done].
    apply starts_with_spec in Hstarts. contradiction.
  - intros [name Hname] Hini Hcfg.
    rewrite (Hends name "ini" Hname) in Hini.
    rewrite (Hends name "cfg" Hname) in Hcfg.
    subst path. rewrite (load_file _ read_ini name self). simpl.
    destruct (ends_with name ".ini"); [done|].
    destruct (ends_with name ".cfg"); done.
  - intros perr. unfold report. split; intros Hline.
    + by apply N.eqb_neq in Hline as ->.
    + by rewrite Hline.
Qed.

Lemma load_accepts_witness :
  load sample_read_ini (Some "file:/etc/app/config.ini") (Build_configFile [])
  = inr (Build_configFile [("app.name", "svc"); ("app.port", "5432")])
  ∧ load sample_read_ini (Some "/etc/app/config.ini") (Build_configFile [])
    = inl "Invalid path prefix"
  ∧ load sample_read_ini (Some "file:/etc/app/config.json") (Build_configFile [])
    = inl "Invalid type in file name"
  ∧ report (Build_ini_parser_error "'=' character not found in line"
              "/etc/app/broken.cfg" 3)
    = "'=' character not found in line in /etc/app/broken.cfg line 3".
Proof.
  split; [|split; [|split]].
  - apply (proj1 (load_accepts _ sample_read_ini "file:/etc/app/config.ini"
                    (Build_configFile []))).
    + by exists "/etc/app/config.ini".
    + left. by exists "file:/etc/app/config".
  - apply (proj1 (proj2 (load_accepts _ sample_read_ini "/etc/app/config.ini"
                           (Build_configFile [])))).
    intros [name Hname]. discriminate.
  - apply (proj1 (proj2 (proj2 (load_accepts _ sample_read_ini
                                  "file:/etc/app/config.json" (Build_configFile []))))).
    + by exists "/etc/app/config.json".
    + intros Hends. apply ends_with_spec in Hends. discriminate.
    + intros Hends. apply ends_with_spec in Hends. discriminate.
  - apply (proj1 (proj2 (proj2 (proj2 (load_accepts _ sample_read_ini ""
                                         (Build_configFile []))))
                    (Build_ini_parser_error "'=' character not found in line"
                       "/etc/app/broken.cfg" 3))).
    discriminate.
Defined.
End ConfigFileProperties.

(** ** Paths and separators *)
Section PathProperties.
Import Path.

Lemma fields_with_separator (sep : ascii) (path : string) :
  occurs sep path = false →
  fields sep (with_separator sep path) = fields DEFAULT_SEPARATOR path.
Proof.
  induction path as [|c path IH]; simpl; [done|].
  destruct (decide (c = sep)) as [->|Hsep]; [discriminate|].
  intros Hfree. destruct (decide (c = DEFAULT_SEPARATOR)) as [->|Hdefault].
  - rewrite decide_True by done. by rewrite IH.
  - rewrite decide_False by done. by rewrite IH.
Qed.

Lemma segments_with_separator (sep : ascii) (path : string) :
  occurs sep path = false →
  segments sep (with_separator sep path) = segments DEFAULT_SEPARATOR path.
Proof. intros Hfree. unfold segments. by rewrite fields_with_separator. Qed.
End PathProperties.

(** ** The back ends *)
Section BackendProperties.
Import Path Backend.

Variable double : Type.
Variable lexical_cast_double : string → option double.
Variable to_string_double : double → string.

Abbreviation getFloat := (Backend.getFloat double lexical_cast_double).
Abbreviation history := (Backend.history double to_string_double).
Abbreviation apply := (Backend.apply double to_string_double).
Abbreviation target := (Backend.target double).

Lemma is_nat_pretty_N_char (d : N) :
  (d < 10)%N → Ascii.is_nat (pretty_N_char d) = Some (N.to_nat d).
Proof.
  intros Hd.
  assert (d = 0 ∨ d = 1 ∨ d = 2 ∨ d = 3 ∨ d = 4 ∨ d = 5 ∨ d = 6 ∨ d = 7
          ∨ d = 8 ∨ d = 9)%N as Hcases by lia.
  repeat (destruct Hcases as [-> | Hcases]; [reflexivity|]). by subst.
Qed.

(** Printing a number and reading the digits back gives the number. *)
Lemma all_digits_pretty_N_go (x : N) (s : string) :
  all_digits 0 (pretty_N_go x s) = all_digits (Z.of_N x) s.
Proof.
  revert s. induction (N.lt_wf_0 x) as [x _ IH]; intros s.
  destruct (decide (x = 0%N)) as [->|Hpos]; [done|].
  rewrite pretty_N_go_step by lia.
  rewrite IH by (apply N.div_lt; lia). simpl.
  rewrite is_nat_pretty_N_char by (apply N.mod_lt; lia).
  f_equal. rewrite N_nat_Z.
  rewrite (N.div_mod x 10) at 3 by lia. lia.
Qed.

Lemma pretty_N_go_not_empty (x : N) (s : string) :
  empty s = false → empty (pretty_N_go x s) = false.
Proof.
  revert s. induction (N.lt_wf_0 x) as [x _ IH]; intros s Hs.
  destruct (decide (x = 0%N)) as [->|Hpos]; [done|].
  rewrite pretty_N_go_step by lia. apply IH; [apply N.div_lt; lia | done].
Qed.

Lemma magnitude_pretty_positive (p : positive) :
  magnitude (pretty p) = Some (Z.pos p).
Proof.
  unfold pretty, pretty_positive, pretty, pretty_N. rewrite decide_False by done.
  unfold magnitude.
  rewrite pretty_N_go_step by lia.
  rewrite pretty_N_go_not_empty by done.
  rewrite <- pretty_N_go_step by lia.
  by rewrite all_digits_pretty_N_go.
Qed.

(** A numeral without sign is read as its magnitude. *)
Lemma lexical_cast_int_unsigned (s : string) (n : Z) :
  magnitude s = Some n → lexical_cast_int s = in_int_range n.
Proof.
  intros Hs. destruct s as [|c s]; [discriminate|].
  unfold magnitude in Hs. simpl in Hs.
  destruct (Ascii.is_nat c) eqn:Hc; [|discriminate].
  assert (c ≠ "-"%char ∧ c ≠ "+"%char) as [Hminus Hplus].
  { split; intros ->; discriminate. }
  assert (lexical_cast_int (String c s) = magnitude (String c s) ≫= in_int_range) as ->.
  { unfold lexical_cast_int.
    destruct c as [[] [] [] [] [] [] [] []]; try reflexivity; congruence. }
  unfold magnitude. simpl. rewrite Hc, Hs. reflexivity.
Qed.

(** The strict parse accepts the canonical form of every [int]. *)
Lemma lexical_cast_int_pretty (n : Z) :
  (INT_MIN ≤ n ≤ INT_MAX)%Z → lexical_cast_int (pretty n) = Some n.
Proof.
  intros Hrange. destruct n as [|p|p].
  - reflexivity.
  - change (pretty (Z.pos p)) with (pretty p).
    rewrite (lexical_cast_int_unsigned _ _ (magnitude_pretty_positive p)).
    unfold in_int_range. by rewrite decide_True.
  - change (pretty (Z.neg p)) with (String "-" (pretty p)).
    unfold lexical_cast_int. rewrite magnitude_pretty_positive. simpl.
    unfold in_int_range. by rewrite decide_True.
Qed.

(** What was put is what is read, as a string and as an integer. *)
Lemma getString_putString (self : instance) (path value : string) :
  getString path (putString path value self) = Some value.
Proof. apply lookup_insert_eq. Qed.

Lemma getInt_putInt (self : instance) (path : string) (n : Z) :
  (INT_MIN ≤ n ≤ INT_MAX)%Z →
  getInt path (putInt path n self) = inr (Some n).
Proof.
  intros Hrange. unfold getInt, get_converted, putInt.
  by rewrite getString_putString, lexical_cast_int_pretty.
Qed.

(** Only a put changes the store, and only at its target. *)
Lemma store_apply (self : instance) (o : operation double) (l : list string) :
  l ∉ option_list (target self o) →
  store (apply self o) !! l = store self !! l.
Proof.
  destruct o; simpl; try done;
    rewrite list_elem_of_singleton; intros Hne; by apply lookup_insert_ne.
Qed.

(** A location that no call wrote to holds what it held before. *)
Lemma store_history (ops : list (operation double)) (self : instance)
    (l : list string) :
  l ∉ (history self ops).2 →
  store (history self ops).1 !! l = store self !! l.
Proof.
  revert self. induction ops as [|o ops IH]; intros self; simpl; [done|].
  destruct (Backend.history _ _ (Backend.apply _ _ self o) ops)
    as [final written] eqn:Hrest.
  simpl. rewrite elem_of_app. intros Hnot.
  specialize (IH (apply self o)). rewrite Hrest in IH. simpl in IH.
  rewrite IH by tauto. apply store_apply. tauto.
Qed.

(** C3. Take a backend instance in any state reached from a fresh one
    by puts and changes of prefix and separator. For a path whose
    location none of the puts wrote to, [getString] returns the empty
    optional (a result, not an error) and [exists] returns false. *)
Theorem getString_unwritten (ops : list (operation double)) (path : string) :
  let self := (history fresh ops).1 in
  let written := (history fresh ops).2 in
  location self path ∉ written →
  getString path self = None ∧ exists_ path self = false.
Proof.
  intros self written Hnot.
  assert (getString path self = None) as Hget.
  { unfold getString, self. rewrite store_history by exact Hnot. apply lookup_empty. }
  split; [exact Hget|]. unfold exists_. by rewrite Hget.
Qed.

(** The parse of a run of digits, against what the digits denote. *)
Lemma all_digits_spec (s : string) (acc n : Z) :
  all_digits acc s = Some n ↔
  all_decimal s = true
  ∧ n = (acc * 10 ^ Z.of_nat (String.length s) + decimal_value s)%Z.
Proof.
  revert acc. induction s as [|c s IH]; intros acc; simpl.
  - split; [intros [= <-]; split; [done | lia] | intros [_ ->]; f_equal; lia].
  - destruct (Ascii.is_nat c) as [d|]; simpl.
    + rewrite IH. rewrite Nat2Z.inj_succ, Z.pow_succ_r by lia.
      split; intros [Hdigits ->]; (split; [done | lia]).
    + split; [discriminate | intros [? _]; discriminate].
Qed.

Lemma magnitude_spec (s : string) (n : Z) : magnitude s = Some n ↔ numeral s n.
Proof.
  unfold magnitude, numeral. destruct s as [|c s].
  - simpl. split; [discriminate | intros [? _]; done].
  - change (empty (String c s)) with false. cbv iota.
    rewrite all_digits_spec. split.
    + intros [Hdigits ->]. split; [done|]. split; [done | lia].
    + intros (_ & Hdigits & ->). split; [done | lia].
Qed.

Lemma in_int_range_spec (m n : Z) :
  in_int_range m = Some n ↔ n = m ∧ (INT_MIN ≤ n ≤ INT_MAX)%Z.
Proof.
  unfold in_int_range. destruct (decide _) as [Hin|Hout].
  - split; [intros [= <-]; done | intros [-> _]; done].
  - split; [discriminate | intros [-> ?]; contradiction].
Qed.

Lemma numeral_first_digit (c : ascii) (s : string) (n : Z) :
  numeral (String c s) n → is_Some (Ascii.is_nat c).
Proof.
  intros (_ & Hdigits & _). simpl in Hdigits.
  destruct (Ascii.is_nat c); [eauto | discriminate].
Qed.

(** The strict parse accepts exactly the valid representations, with
    their values. *)
Lemma lexical_cast_int_spec (text : string) (n : Z) :
  lexical_cast_int text = Some n ↔ represents_int text n.
Proof.
  unfold represents_int. destruct text as [|c s].
  - simpl. split; [discriminate|].
    intros (_ & [(? & _)|[(? & ? & _)|(? & ? & ? & _)]]); done.
  - destruct (decide (c = "-"%char)) as [->|Hminus];
      [|destruct (decide (c = "+"%char)) as [->|Hplus]].
    + change (lexical_cast_int (String "-" s))
        with (magnitude s ≫= λ m, in_int_range (- m)).
      rewrite bind_Some. setoid_rewrite magnitude_spec.
      setoid_rewrite in_int_range_spec. split.
      * intros (m & Hm & -> & Hrange). split; [done|]. right. right. eauto.
      * intros (Hrange & [Hnum|[(? & ? & _)|(s' & m & Heq & Hm & ->)]]).
        -- by apply numeral_first_digit in Hnum as [? ?].
        -- discriminate.
        -- simplify_eq. eauto.
    + change (lexical_cast_int (String "+" s)) with (magnitude s ≫= in_int_range).
      rewrite bind_Some. setoid_rewrite magnitude_spec.
      setoid_rewrite in_int_range_spec. split.
      * intros (m & Hm & -> & Hrange). split; [done|]. right. left. eauto.
      * intros (Hrange & [Hnum|[(s' & Heq & Hm)|(? & ? & ? & _)]]).
        -- by apply numeral_first_digit in Hnum as [? ?].
        -- simplify_eq. eauto.
        -- discriminate.
    + assert (lexical_cast_int (String c s)
              = magnitude (String c s) ≫= in_int_range) as ->.
      { unfold lexical_cast_int.
        destruct c as [[] [] [] [] [] [] [] []]; try reflexivity; congruence. }
      rewrite bind_Some. setoid_rewrite magnitude_spec.
      setoid_rewrite in_int_range_spec. split.
      * intros (m & Hm & -> & Hrange). split; [done|]. by left.
      * intros (Hrange & [Hnum|[(? & ? & _)|(? & ? & ? & _)]]);
          [eauto | congruence | congruence].
Qed.


(** C8. On every instance: a path written with a separator [sep] of
    the caller's choice, under [setPathSeparator sep], addresses the
    location that the same path written with ['/'] addresses under the
    default separator, for [getString] and for [putString] alike; so
    ["a|b"] under ['|'] is ["a/b"] under ['/']. [resetPathSeparator]
    brings the default back. The prefix is read with ['/'] whatever
    the separator is, before or after it was set. *)
Theorem separator_addresses_same_location (self : instance) :
  (∀ (sep : ascii) (path : string),
     occurs sep path = false →
     location (setPathSeparator sep self) (with_separator sep path)
     = location (resetPathSeparator self) path
     ∧ getString (with_separator sep path) (setPathSeparator sep self)
       = getString path (resetPathSeparator self)
     ∧ ∀ value,
         store (putString (with_separator sep path) value (setPathSeparator sep self))
         = store (putString path value (resetPathSeparator self)))
  ∧ location (setPathSeparator "|" self) "a|b"
    = location (resetPathSeparator self) "a/b"
  ∧ (∀ sep : ascii,
       resetPathSeparator (setPathSeparator sep self) = resetPathSeparator self
       ∧ separator (resetPathSeparator (setPathSeparator sep self)) = "/"%char)
  ∧ (∀ (sep : ascii) (prefix path : string),
       location (setPrefix prefix (setPathSeparator sep self)) path
       = segments "/" prefix ++ segments sep path
       ∧ location (setPathSeparator sep (setPrefix prefix self)) path
         = segments "/" prefix ++ segments sep path).
Proof.
  assert (∀ sep path, occurs sep path = false →
          location (setPathSeparator sep self) (with_separator sep path)
          = location (resetPathSeparator self) path) as Hlocation.
  { intros sep path Hfree. unfold location. simpl.
    by rewrite segments_with_separator. }
  split; [|split; [|split]].
  - intros sep path Hfree. split; [by apply Hlocation|]. split.
    + unfold getString. by rewrite Hlocation.
    + intros value. unfold putString. simpl. by rewrite Hlocation.
  - exact (Hlocation "|"%char "a/b" eq_refl).
  - intros sep. split; reflexivity.
  - intros sep prefix path. split; reflexivity.
Qed.
End BackendProperties.

(** *** The back ends on concrete calls *)
Section BackendExamples.
Import Path Backend.

Lemma getString_unwritten_witness :
  let ops := [SetPrefix no_double "app"; PutString no_double "x" "1";
              SetPathSeparator no_double "|"] in
  let self := (history no_double no_to_string fresh ops).1 in
  getString "y" self = None ∧ exists_ "y" self = false.
Proof.
  apply (getString_unwritten no_double no_to_string).
  change (["app"; "y"] ∉ [["app"; "x"]]).
  rewrite list_elem_of_singleton. discriminate.
Defined.


Lemma separator_addresses_same_location_witness :
  getString "a|b" (setPathSeparator "|" (putString "a/b" "v" fresh))
  = getString "a/b" (resetPathSeparator (putString "a/b" "v" fresh)).
Proof.
  apply (proj1 (separator_addresses_same_location (putString "a/b" "v" fresh))
           "|"%char "a/b").
  reflexivity.
Defined.
End BackendExamples.

(** ** Trees of key/value pairs *)
Section TreeProperties.
Import Path Tree.

Lemma child_with_child_eq (f : Node → Node) (name : string)
    (cs : list (string * Node)) :
  child name (with_child f name cs) = Some (f (default bare (child name cs))).
Proof.
  induction cs as [|[k n] cs IH]; simpl.
  - by rewrite decide_True.
  - destruct (decide (k = name)) as [->|Hne]; simpl.
    + by rewrite decide_True.
    + by rewrite decide_False.
Qed.

Lemma child_with_child_ne (f : Node → Node) (name name' : string)
    (cs : list (string * Node)) :
  name ≠ name' → child name' (with_child f name cs) = child name' cs.
Proof.
  intros Hne. induction cs as [|[k n] cs IH]; simpl.
  - by rewrite decide_False.
  - destruct (decide (k = name)) as [->|Hk]; simpl.
    + by rewrite !decide_False.
    + destruct (decide (k = name')); [done|]. exact IH.
Qed.

Lemma get_bare (key : list string) : get key bare = None.
Proof. by destruct key. Qed.

Lemma descend_app (key rest : list string) (n : Node) :
  descend (key ++ rest) n = descend key n ≫= descend rest.
Proof.
  revert n. induction key as [|name key IH]; intros n; simpl; [done|].
  destruct (child name (children n)); simpl; [apply IH | done].
Qed.

(** The value attached at a key is found there. *)
Lemma get_attach_eq (key : list string) (v : string) (n : Node) :
  get key (attach key v n) = Some v.
Proof.
  revert n. induction key as [|name key IH]; intros n; [done|].
  unfold get. simpl. rewrite child_with_child_eq. simpl. apply IH.
Qed.

(** Attaching a value at one key leaves every other key alone. *)
Lemma get_attach_ne (key key' : list string) (v : string) (n : Node) :
  key ≠ key' → get key' (attach key v n) = get key' n.
Proof.
  revert key' n. induction key as [|name key IH]; intros key' n Hne.
  - destruct key' as [|name' key']; [done|]. reflexivity.
  - destruct key' as [|name' key']; [reflexivity|].
    unfold get. simpl.
    destruct (decide (name = name')) as [<-|Hname].
    + rewrite child_with_child_eq. simpl.
      assert (key ≠ key') as Hkey by congruence.
      specialize (IH key' (default bare (child name (children n))) Hkey).
      unfold get in IH. rewrite IH.
      destruct (child name (children n)); simpl; [done|]. apply get_bare.
    + by rewrite child_with_child_ne.
Qed.

Abbreviation key_of sep := (λ kv : string * string, segments sep kv.1).
Abbreviation grow sep :=
  (λ (tree : Node) (kv : string * string), attach (segments sep kv.1) kv.2 tree).

Lemma get_foldl_other (sep : ascii) (pairs : list (string * string))
    (tree : Node) (key : list string) :
  key ∉ key_of sep <$> pairs →
  get key (foldl (grow sep) tree pairs) = get key tree.
Proof.
  revert tree. induction pairs as [|[k v] pairs IH]; intros tree; simpl; [done|].
  rewrite not_elem_of_cons. intros [Hne Hnot].
  rewrite IH by done. by apply get_attach_ne.
Qed.

Lemma get_foldl (sep : ascii) (pairs : list (string * string)) (tree : Node)
    (k v : string) :
  NoDup (key_of sep <$> pairs) → (k, v) ∈ pairs →
  get (segments sep k) (foldl (grow sep) tree pairs) = Some v.
Proof.
  revert tree. induction pairs as [|[k' v'] pairs IH]; intros tree; simpl.
  - intros _ Hin. by apply elem_of_nil in Hin.
  - rewrite NoDup_cons, elem_of_cons. intros [Hfresh Hdup] [Heq|Hin].
    + simplify_eq. rewrite get_foldl_other by done. apply get_attach_eq.
    + by apply IH.
Qed.

(** Every stored pair is found in the tree at its key. *)
Lemma get_keyValuesToTree (sep : ascii) (pairs : list (string * string))
    (k v : string) :
  NoDup (key_of sep <$> pairs) → (k, v) ∈ pairs →
  get (segments sep k) (keyValuesToTree sep pairs) = Some v.
Proof. apply get_foldl. Qed.

Lemma getRecursiveMap_keys (sep : ascii) (stored : list (string * string))
    (path : string) :
  NoDup (key_of sep <$> stored) →
  NoDup (key_of sep <$> getRecursiveMap sep stored path).
Proof.
  intros Hdup. eapply sublist_NoDup; [exact Hdup|].
  apply fmap_sublist, sublist_filter.
Qed.

(** C7. Over the stored pairs app/db/host = localhost,
    app/db/port = 5432 and app/name = svc with separator ['/'],
    [getRecursive "app"] is the tree with a child [db], whose children
    are [host] = localhost and [port] = 5432, and a leaf [name] = svc
    next to it, and [getRecursiveMap "app"] is those three pairs with
    their full keys. In general, for pairs with distinct keys: every
    pair at or below the queried path is found in the tree under the
    rest of its key; and when one key is a strict prefix of another,
    the node of the shorter key carries its own value and has children,
    and the value of the longer key is found below it. *)
Theorem getRecursive_tree :
  getRecursive "/" sample_stored "app"
  = Build_Node None
      [("db", Build_Node None [("host", leaf "localhost"); ("port", leaf "5432")]);
       ("name", leaf "svc")]
  ∧ getRecursiveMap "/" sample_stored "app" = sample_stored
  ∧ (∀ (sep : ascii) (stored : list (string * string)) (path k v : string)
       (rest : list string),
       NoDup (key_of sep <$> stored) →
       (k, v) ∈ stored →
       segments sep k = segments sep path ++ rest →
       (k, v) ∈ getRecursiveMap sep stored path
       ∧ get rest (getRecursive sep stored path) = Some v)
  ∧ (∀ (sep : ascii) (pairs : list (string * string)) (k1 v1 k2 v2 : string)
       (rest : list string),
       NoDup (key_of sep <$> pairs) →
       (k1, v1) ∈ pairs → (k2, v2) ∈ pairs →
       segments sep k2 = segments sep k1 ++ rest → rest ≠ [] →
       ∃ node,
         descend (segments sep k1) (keyValuesToTree sep pairs) = Some node
         ∧ value node = Some v1
         ∧ children node ≠ []
         ∧ get rest node = Some v2).
Proof.
  split; [reflexivity|]. split; [reflexivity|]. split.
  - intros sep stored path k v rest Hdup Hin Hkey.
    assert ((k, v) ∈ getRecursiveMap sep stored path) as Hfetched.
    { apply list_elem_of_filter. split; [|done].
      apply bool_decide_eq_true. simpl. rewrite Hkey. by apply prefix_app_r. }
    split; [done|].
    pose proof (get_keyValuesToTree sep _ k v
                  (getRecursiveMap_keys sep stored path Hdup) Hfetched) as Hget.
    unfold get in Hget. rewrite Hkey, descend_app in Hget.
    unfold getRecursive.
    destruct (descend (segments sep path) _) as [node|]; [exact Hget | done].
  - intros sep pairs k1 v1 k2 v2 rest Hdup Hin1 Hin2 Hkey Hrest.
    pose proof (get_keyValuesToTree sep pairs k1 v1 Hdup Hin1) as Hget1.
    pose proof (get_keyValuesToTree sep pairs k2 v2 Hdup Hin2) as Hget2.
    unfold get in Hget1, Hget2. rewrite Hkey, descend_app in Hget2.
    destruct (descend (segments sep k1) _) as [node|]; [|done].
    exists node. simpl in Hget1, Hget2.
    split; [done|]. split; [done|]. split; [|done].
    intros Hnone. destruct rest as [|name rest]; [done|].
    simpl in Hget2. by rewrite Hnone in Hget2.
Qed.

Lemma getRecursive_tree_witness :
  ∃ node,
    descend ["app"; "db"] (keyValuesToTree "/" sample_nested) = Some node
    ∧ value node = Some "primary"
    ∧ children node ≠ []
    ∧ get ["host"] node = Some "localhost".
Proof.
  apply (proj2 (proj2 (proj2 getRecursive_tree)) "/"%char sample_nested
           "app/db" "primary" "app/db/host" "localhost" ["host"]).
  - apply (bool_decide_unpack _). vm_compute. exact I.
  - apply list_elem_of_here.
  - apply list_elem_of_further, list_elem_of_here.
  - reflexivity.
  - discriminate.
Defined.
End TreeProperties.

(** * Further properties of the factory *)
Section FactoryInvariants.
Import http Factory.

Variable ParseHttpUrl : string → url.
Variable defs : build.
Variable raises : call → option string.

Abbreviation factory := (Factory.getConfiguration ParseHttpUrl defs raises).

Lemma string_length_app (s t : string) :
  String.length (s +:+ t) = String.length s + String.length t.
Proof. induction s as [|c s IH]; [done|]. rewrite app_cons. simpl. by rewrite IH. Qed.

(** [getConsul] in a build with the Consul backend, call by call. *)
Lemma run_getConsul_enabled (u : url) :
  let consul := ConsulBackend (host u) (port u) in
  FLP_CONFIGURATION_BACKEND_CONSUL_ENABLED defs = true →
  run (getConsul defs raises u) =
    match raises (construct consul) with
    | Some what => ([construct consul], inl (backend_failure (construct consul) what))
    | None =>
        if empty (path u) then ([construct consul], inr (owning consul))
        else ([construct consul; setPrefix consul (path u)],
              match raises (setPrefix consul (path u)) with
              | Some what => inl (backend_failure (setPrefix consul (path u)) what)
              | None => inr (owning consul)
              end)
    end.
Proof.
  intros consul Henabled. unfold run, getConsul. rewrite Henabled.
  unfold Factory.make_unique, mbind, M_bind, perform, call_setPrefix, perform,
    mret, M_ret.
  fold consul.
  destruct (raises (construct consul)); [reflexivity|].
  destruct (empty (path u)); simpl; [reflexivity|].
  destruct (raises (setPrefix consul (path u))); reflexivity.
Qed.

(** Every way through [getConfiguration], with its outcome. *)
Lemma getConfiguration_cases (uri : string) :
  let u := ParseHttpUrl uri in
  let filePath := "/" +:+ host u +:+ path u in
  let consul := ConsulBackend (host u) (port u) in
  (protocol u = "" ∧
   run (factory uri) = ([], inl (runtime_error "Ill-formed URI")))
  ∨ (protocol u ≠ "" ∧ (protocol u ∉ ["file"; "json"; "consul"]) ∧
     run (factory uri) = ([], inl (runtime_error "Unrecognized backend")))
  ∨ (protocol u = "file" ∧
     run (factory uri) =
     ([construct (FileBackend filePath)],
      match raises (construct (FileBackend filePath)) with
      | Some what => inl (backend_failure (construct (FileBackend filePath)) what)
      | None => inr (owning (FileBackend filePath))
      end))
  ∨ (protocol u = "json" ∧
     FLP_CONFIGURATION_BACKEND_FILE_JSON_ENABLED defs = false ∧
     run (factory uri) = ([], inl (runtime_error "Back-end 'json' not enabled")))
  ∨ (protocol u = "json" ∧
     FLP_CONFIGURATION_BACKEND_FILE_JSON_ENABLED defs = true ∧
     run (factory uri) =
     ([construct (JsonBackend filePath)],
      match raises (construct (JsonBackend filePath)) with
      | Some what => inl (backend_failure (construct (JsonBackend filePath)) what)
      | None => inr (owning (JsonBackend filePath))
      end))
  ∨ (protocol u = "consul" ∧
     FLP_CONFIGURATION_BACKEND_CONSUL_ENABLED defs = false ∧
     run (factory uri) = ([], inl (runtime_error "Back-end 'consul' not enabled")))
  ∨ (protocol u = "consul" ∧
     FLP_CONFIGURATION_BACKEND_CONSUL_ENABLED defs = true ∧
     run (factory uri) =
       match raises (construct consul) with
       | Some what =>
           ([construct consul], inl (backend_failure (construct consul) what))
       | None =>
           if empty (path u) then ([construct consul], inr (owning consul))
           else ([construct consul; setPrefix consul (path u)],
                 match raises (setPrefix consul (path u)) with
                 | Some what =>
                     inl (backend_failure (setPrefix consul (path u)) what)
                 | None => inr (owning consul)
                 end)
       end).
Proof.
  intros u filePath consul.
  destruct (decide (protocol u = "")) as [Hnone|Hsome].
  { left. split; [done|]. unfold run, Factory.getConfiguration. fold u.
    apply empty_true in Hnone. by rewrite Hnone. }
  destruct (decide (protocol u = "file")) as [Hfile|Hnofile].
  { do 2 right. left. split; [done|].
    rewrite (getConfiguration_file ParseHttpUrl defs raises uri Hfile).
    apply run_make_unique. }
  destruct (decide (protocol u = "json")) as [Hjson|Hnojson].
  { rewrite (getConfiguration_json ParseHttpUrl defs raises uri Hjson).
    unfold getJson.
    destruct (FLP_CONFIGURATION_BACKEND_FILE_JSON_ENABLED defs) eqn:Hflag.
    - do 4 right. left. split; [done|]. split; [done|]. apply run_make_unique.
    - do 3 right. left. done. }
  destruct (decide (protocol u = "consul")) as [Hconsul|Hnoconsul].
  { rewrite (getConfiguration_consul ParseHttpUrl defs raises uri Hconsul).
    destruct (FLP_CONFIGURATION_BACKEND_CONSUL_ENABLED defs) eqn:Hflag.
    - do 6 right. split; [done|]. split; [done|].
      by apply run_getConsul_enabled.
    - do 5 right. left. split; [done|]. split; [done|].
      unfold getConsul. by rewrite Hflag. }
  right. left. split; [done|].
  assert (protocol u ∉ ["file"; "json"; "consul"]) as Hother.
  { rewrite !elem_of_cons, elem_of_nil. tauto. }
  split; [done|]. unfold run, Factory.getConfiguration. fold u.
  apply empty_false in Hsome. by rewrite Hsome, (map_other _ _ _ Hother).
Qed.

Ltac factory_cases uri :=
  destruct (getConfiguration_cases uri)
    as [(Hscheme & Hrun)
       |[(Hscheme & Hother & Hrun)
        |[(Hscheme & Hrun)
         |[(Hscheme & Hflag & Hrun)
          |[(Hscheme & Hflag & Hrun)
           |[(Hscheme & Hflag & Hrun)
            |(Hscheme & Hflag & Hrun)]]]]]];
  cbv zeta in Hscheme, Hrun.

Ltac one_of_the_list :=
  rewrite ?elem_of_cons, ?elem_of_nil; repeat (first [by left | right]).

(** X1. When [getConfiguration] throws a runtime error of its own, no
    backend class has been touched, and the message is one of four:
    "Ill-formed URI", "Unrecognized backend", "Back-end 'json' not
    enabled", "Back-end 'consul' not enabled". *)
Theorem own_errors_before_construction (uri : string) (log : list call)
    (what : string) :
  run (factory uri) = (log, inl (runtime_error what)) →
  log = []
  ∧ what ∈ ["Ill-formed URI"; "Unrecognized backend";
            "Back-end 'json' not enabled"; "Back-end 'consul' not enabled"].
Proof.
  intros Hout. factory_cases uri; rewrite Hrun in Hout.
  - simplify_eq. split; [done | one_of_the_list].
  - simplify_eq. split; [done | one_of_the_list].
  - destruct (raises _); simplify_eq.
  - simplify_eq. split; [done | one_of_the_list].
  - destruct (raises _); simplify_eq.
  - simplify_eq. split; [done | one_of_the_list].
  - destruct (raises (construct _)); [simplify_eq|].
    destruct (empty _); [simplify_eq|].
    destruct (raises (setPrefix _ _)); simplify_eq.
Qed.

(** X2. When [getConfiguration] returns, the pointer is not null and
    owns the object whose construction is the first call in the log;
    every call made on the way returned; and the class of the object is
    the one of the scheme, built from the parts of the parsed URI: a
    file backend for file, a JSON backend for json in a build that has
    it, a Consul backend for consul in a build that has it. *)
Theorem returned_backend_matches_scheme (uri : string) (log : list call)
    (ptr : UniqueConfiguration) :
  let u := ParseHttpUrl uri in
  run (factory uri) = (log, inr ptr) →
  ∃ b,
    ptr = owning b
    ∧ head log = Some (construct b)
    ∧ (∀ c, c ∈ log → raises c = None)
    ∧ match b with
      | FileBackend filePath =>
          protocol u = "file" ∧ filePath = "/" +:+ host u +:+ path u
      | JsonBackend filePath =>
          protocol u = "json"
          ∧ FLP_CONFIGURATION_BACKEND_FILE_JSON_ENABLED defs = true
          ∧ filePath = "/" +:+ host u +:+ path u
      | ConsulBackend h n =>
          protocol u = "consul"
          ∧ FLP_CONFIGURATION_BACKEND_CONSUL_ENABLED defs = true
          ∧ h = host u ∧ n = port u
      end.
Proof.
  intros u Hout. factory_cases uri; rewrite Hrun in Hout; try discriminate.
  - destruct (raises _) eqn:Hctor; simplify_eq.
    eexists. split; [done|]. split; [done|]. split; [|done].
    intros c Hc. apply list_elem_of_singleton in Hc. by subst.
  - destruct (raises _) eqn:Hctor; simplify_eq.
    eexists. split; [done|]. split; [done|]. split; [|done].
    intros c Hc. apply list_elem_of_singleton in Hc. by subst.
  - destruct (raises (construct _)) eqn:Hctor; [simplify_eq|].
    destruct (empty _); [simplify_eq|].
    + eexists. split; [done|]. split; [done|]. split; [|done].
      intros c Hc. apply list_elem_of_singleton in Hc. by subst.
    + destruct (raises (setPrefix _ _)) eqn:Hprefix; simplify_eq.
      eexists. split; [done|]. split; [done|]. split; [|done].
      intros c. rewrite !elem_of_cons, elem_of_nil.
      intros [->|[->|[]]]; done.
Qed.

(** X3. When a backend class throws, [getConfiguration] stops there:
    the failure it reports is the one of the last call in the log, with
    the message of that call, and every call before it returned. *)
Theorem backend_failure_is_last_call (uri : string) (log : list call)
    (c : call) (what : string) :
  run (factory uri) = (log, inl (backend_failure c what)) →
  raises c = Some what
  ∧ ∃ before, log = before ++ [c] ∧ ∀ c', c' ∈ before → raises c' = None.
Proof.
  intros Hout. factory_cases uri; rewrite Hrun in Hout; try discriminate.
  - destruct (raises _) eqn:Hctor; simplify_eq.
    split; [done|]. exists []. split; [done|]. by intros c' ?%elem_of_nil.
  - destruct (raises _) eqn:Hctor; simplify_eq.
    split; [done|]. exists []. split; [done|]. by intros c' ?%elem_of_nil.
  - destruct (raises (construct _)) eqn:Hctor.
    { simplify_eq. split; [done|]. exists []. split; [done|].
      by intros c' ?%elem_of_nil. }
    destruct (empty _); [simplify_eq|].
    destruct (raises (setPrefix _ _)) eqn:Hprefix; simplify_eq.
    split; [done|]. eexists [_]. split; [done|].
    intros c' Hc'. apply list_elem_of_singleton in Hc'. by subst.
Qed.

(** X4. One call of [getConfiguration] constructs at most one object:
    the log is empty, or the construction of one object, or that
    construction followed by one [setPrefix] on the same object, which
    then is a Consul backend and gets the non-empty path of the URI.
    A file or JSON backend is never sent [setPrefix]. *)
Theorem at_most_one_backend (uri : string) :
  let u := ParseHttpUrl uri in
  let log := (run (factory uri)).1 in
  log = []
  ∨ (∃ b, log = [construct b])
  ∨ (∃ h n, log = [construct (ConsulBackend h n);
                   setPrefix (ConsulBackend h n) (path u)]
            ∧ path u ≠ "").
Proof.
  intros u log. subst log. factory_cases uri; rewrite Hrun; simpl; auto.
  - right. left. eauto.
  - right. left. eauto.
  - destruct (raises (construct _)); simpl; [right; left; eauto|].
    destruct (empty (path _)) eqn:Hempty; simpl; [right; left; eauto|].
    right. right. apply empty_false in Hempty. eauto.
Qed.

(** X5. The two build switches are independent: whether the JSON
    backend is built in changes nothing for a URI whose scheme is not
    json, and whether the Consul backend is built in changes nothing
    for a URI whose scheme is not consul. *)
Theorem switches_are_independent (uri : string) (json json' consul consul' : bool) :
  (protocol (ParseHttpUrl uri) ≠ "json" →
   Factory.getConfiguration ParseHttpUrl (Build json consul) raises uri
   = Factory.getConfiguration ParseHttpUrl (Build json' consul) raises uri)
  ∧ (protocol (ParseHttpUrl uri) ≠ "consul" →
     Factory.getConfiguration ParseHttpUrl (Build json consul) raises uri
     = Factory.getConfiguration ParseHttpUrl (Build json consul') raises uri).
Proof.
  split; intros Hscheme; unfold Factory.getConfiguration;
    destruct (empty _); try reflexivity; unfold map.
  - destruct (decide (protocol (ParseHttpUrl uri) = "file")) as [->|Hfile].
    { by rewrite !lookup_insert_eq. }
    rewrite !(lookup_insert_ne _ "file") by done.
    rewrite !(lookup_insert_ne _ "json") by done.
    destruct (decide (protocol (ParseHttpUrl uri) = "consul")) as [->|Hconsul].
    { by rewrite !lookup_insert_eq. }
    by rewrite !(lookup_insert_ne _ "consul"), !lookup_empty by done.
  - destruct (decide (protocol (ParseHttpUrl uri) = "file")) as [->|Hfile].
    { by rewrite !lookup_insert_eq. }
    rewrite !(lookup_insert_ne _ "file") by done.
    destruct (decide (protocol (ParseHttpUrl uri) = "json")) as [->|Hjson].
    { by rewrite !lookup_insert_eq. }
    rewrite !(lookup_insert_ne _ "json") by done.
    by rewrite !(lookup_insert_ne _ "consul"), !lookup_empty by done.
Qed.

(** X6. The path a file or JSON backend is constructed on is never
    empty and always absolute: it is ['/'] followed by as many
    characters as the host and the path of the parsed URI have
    together; for an empty host and path it is ["/"]. *)
Theorem file_path_is_absolute (uri filePath : string) :
  let u := ParseHttpUrl uri in
  let log := (run (factory uri)).1 in
  construct (FileBackend filePath) ∈ log ∨ construct (JsonBackend filePath) ∈ log →
  ∃ rest,
    filePath = String "/" rest
    ∧ String.length rest = String.length (host u) + String.length (path u).
Proof.
  intros u log Hin. subst log.
  assert (filePath = "/" +:+ host u +:+ path u) as ->.
  { factory_cases uri; rewrite Hrun in Hin; simpl in Hin.
    - destruct Hin as [Hin|Hin]; by apply elem_of_nil in Hin.
    - destruct Hin as [Hin|Hin]; by apply elem_of_nil in Hin.
    - destruct Hin as [Hin|Hin]; apply list_elem_of_singleton in Hin; by simplify_eq.
    - destruct Hin as [Hin|Hin]; by apply elem_of_nil in Hin.
    - destruct Hin as [Hin|Hin]; apply list_elem_of_singleton in Hin; by simplify_eq.
    - destruct Hin as [Hin|Hin]; by apply elem_of_nil in Hin.
    - destruct (raises (construct _)); simpl in Hin.
      { destruct Hin as [Hin|Hin]; apply list_elem_of_singleton in Hin;
          discriminate. }
      destruct (empty _); simpl in Hin.
      { destruct Hin as [Hin|Hin]; apply list_elem_of_singleton in Hin;
          discriminate. }
      rewrite !elem_of_cons, !elem_of_nil in Hin.
      destruct Hin as [[?|[?|[]]]|[?|[?|[]]]]; discriminate. }
  exists (host u +:+ path u). split; [done|]. apply string_length_app.
Qed.

(** X11. The port of a URI matters for consul only: two URIs whose
    parses have the same scheme, host and path, and a scheme other than
    consul, get the same outcome. A port written in a file or JSON URI
    is dropped without notice. *)
Theorem port_only_matters_for_consul (uri uri' : string) :
  protocol (ParseHttpUrl uri) = protocol (ParseHttpUrl uri') →
  host (ParseHttpUrl uri) = host (ParseHttpUrl uri') →
  path (ParseHttpUrl uri) = path (ParseHttpUrl uri') →
  protocol (ParseHttpUrl uri) ≠ "consul" →
  factory uri = factory uri'.
Proof.
  intros Hscheme Hhost Hpath Hconsul. unfold Factory.getConfiguration.
  rewrite <- Hscheme. destruct (empty _); [done|].
  destruct (decide (protocol (ParseHttpUrl uri) = "file")) as [Hfile|Hnofile].
  { rewrite Hfile, map_file. unfold getFile. by rewrite Hhost, Hpath. }
  destruct (decide (protocol (ParseHttpUrl uri) = "json")) as [Hjson|Hnojson].
  { rewrite Hjson, map_json. unfold getJson. by rewrite Hhost, Hpath. }
  rewrite map_other; [done|].
  rewrite !elem_of_cons, elem_of_nil. tauto.
Qed.
End FactoryInvariants.

(** *** The further properties on concrete URIs *)
Section FactoryInvariantsExamples.
Import http Factory.

Lemma own_errors_before_construction_witness :
  [] = @nil call
  ∧ "Back-end 'consul' not enabled"
    ∈ ["Ill-formed URI"; "Unrecognized backend";
       "Back-end 'json' not enabled"; "Back-end 'consul' not enabled"].
Proof.
  apply (own_errors_before_construction UriParser.ParseHttpUrl minimal_build never
           "consul://host:8500/prefix").
  reflexivity.
Defined.

Lemma returned_backend_matches_scheme_witness :
  ∃ b, owning (ConsulBackend "host" 8500) = owning b
       ∧ head [construct (ConsulBackend "host" 8500);
               setPrefix (ConsulBackend "host" 8500) "/prefix"]
         = Some (construct b).
Proof.
  destruct (returned_backend_matches_scheme UriParser.ParseHttpUrl full_build never
              "consul://host:8500/prefix"
              [construct (ConsulBackend "host" 8500);
               setPrefix (ConsulBackend "host" 8500) "/prefix"]
              (owning (ConsulBackend "host" 8500)) eq_refl)
    as (b & Hptr & Hhead & _).
  exists b. split; [exact Hptr | exact Hhead].
Defined.

Lemma backend_failure_is_last_call_witness :
  prefix_rejected (setPrefix (ConsulBackend "host" 8500) "/prefix")
  = Some "no such prefix"
  ∧ ∃ before,
      [construct (ConsulBackend "host" 8500);
       setPrefix (ConsulBackend "host" 8500) "/prefix"]
      = before ++ [setPrefix (ConsulBackend "host" 8500) "/prefix"]
      ∧ ∀ c', c' ∈ before → prefix_rejected c' = None.
Proof.
  apply (backend_failure_is_last_call UriParser.ParseHttpUrl full_build
           prefix_rejected "consul://host:8500/prefix").
  reflexivity.
Defined.

Lemma switches_are_independent_witness :
  getConfiguration UriParser.ParseHttpUrl (Build true true) consul_unreachable
    "consul://host:8500/prefix"
  = getConfiguration UriParser.ParseHttpUrl (Build false true) consul_unreachable
      "consul://host:8500/prefix".
Proof.
  apply (proj1 (switches_are_independent UriParser.ParseHttpUrl consul_unreachable
                  "consul://host:8500/prefix" true false true true)).
  discriminate.
Defined.

Lemma file_path_is_absolute_witness :
  ∃ rest, "/etc/app/config.ini" = String "/" rest
          ∧ String.length rest = String.length "etc" + String.length "/app/config.ini".
Proof.
  apply (file_path_is_absolute UriParser.ParseHttpUrl full_build never
           "file://etc/app/config.ini" "/etc/app/config.ini").
  left. apply list_elem_of_here.
Defined.

Lemma port_only_matters_for_consul_witness :
  getConfiguration UriParser.ParseHttpUrl full_build never "file://tmp:8080/x.ini"
  = getConfiguration UriParser.ParseHttpUrl full_build never "file://tmp/x.ini".
Proof.
  apply (port_only_matters_for_consul UriParser.ParseHttpUrl full_build never
           "file://tmp:8080/x.ini" "file://tmp/x.ini");
    [reflexivity | reflexivity | reflexivity | discriminate].
Defined.
End FactoryInvariantsExamples.

(** * Further properties of the INI loader *)
Section ConfigFileInvariants.
Import ConfigFile.

Variable ptree : Type.
Variable read_ini : string → ptree → ini_parser_error + ptree.

(** The loop of [load] over the two suffixes, in one test. *)
Lemma load_suffixes_ini (name : string) (self : configFile ptree) :
  load_suffixes read_ini SUFFIX_FILE_INI name self =
  if ends_with name ".ini" || ends_with name ".cfg" then
    match read_ini name (pt self) with
    | inl perr => inl (report perr)
    | inr pt' => inr (Build_configFile pt')
    end
  else inl "Invalid type in file name".
Proof.
  simpl. destruct (ends_with name ".ini"); [done|].
  by destruct (ends_with name ".cfg").
Qed.

Lemma ends_with_length (input test : string) :
  ends_with input test = true → String.length test ≤ String.length input.
Proof.
  intros [front ->]%ends_with_spec. rewrite string_length_app. lia.
Qed.

(** X7. [load] hands out a tree only if the parser produced it: when
    [load] returns, the path is ["file:"] followed by a file name that
    ends with [".ini"] or [".cfg"], the parser was given exactly that
    file name and the tree the object held, and the new tree is the
    one the parser returned. *)
Theorem load_returns_parsed_tree (path : option string)
    (self cf : configFile ptree) :
  load read_ini path self = inr cf →
  ∃ name,
    path = Some ("file:" +:+ name)
    ∧ ((∃ front, name = front +:+ ".ini") ∨ (∃ front, name = front +:+ ".cfg"))
    ∧ read_ini name (pt self) = inr (pt cf).
Proof.
  intros Hload. destruct path as [path|]; [|discriminate].
  unfold load in Hload.
  destruct (starts_with path PREFIX_FILE) eqn:Hstarts; [|discriminate].
  apply starts_with_spec in Hstarts as [name ->].
  rewrite advance_app, load_suffixes_ini in Hload.
  exists name. split; [done|].
  destruct (ends_with name ".ini") eqn:Hini; simpl in Hload.
  - split; [left; by apply ends_with_spec|].
    destruct (read_ini name (pt self)); by simplify_eq.
  - destruct (ends_with name ".cfg") eqn:Hcfg; [|discriminate].
    split; [right; by apply ends_with_spec|].
    destruct (read_ini name (pt self)); by simplify_eq.
Qed.

(** X9. No path of fewer than nine characters gets to the parser:
    ["file:"] and a suffix need that many. Whatever the parser and the
    object, such a path, the empty one included, makes [load] throw
    "Invalid path prefix" or "Invalid type in file name". *)
Theorem load_short_path (path : string) (self : configFile ptree) :
  String.length path < 9 →
  load read_ini (Some path) self = inl "Invalid path prefix"
  ∨ load read_ini (Some path) self = inl "Invalid type in file name".
Proof.
  intros Hshort. unfold load.
  destruct (starts_with path PREFIX_FILE) eqn:Hstarts; [|by left].
  right. apply starts_with_spec in Hstarts as [name ->].
  rewrite advance_app, load_suffixes_ini.
  rewrite string_length_app in Hshort. simpl in Hshort.
  destruct (ends_with name ".ini") eqn:Hini.
  { apply ends_with_length in Hini. simpl in Hini. lia. }
  destruct (ends_with name ".cfg") eqn:Hcfg; [|done].
  apply ends_with_length in Hcfg. simpl in Hcfg. lia.
Qed.

(** X10. What is read after a successful [load] comes from the tree
    the parser built for the file: [getValue] on the loaded object
    returns the value the property tree gives for the key in that
    tree, and when the tree gives none (no such key, or a value that
    does not convert) it throws the tree's own message; it never
    returns a default. *)
Theorem getValue_after_load (T : Type) (get : ptree → string → ptree_error + T)
    (path key : string) (self cf : configFile ptree) :
  load read_ini (Some path) self = inr cf →
  ∃ parsed,
    read_ini (advance 5 path) (pt self) = inr parsed
    ∧ (∀ value, get parsed key = inr value → getValue get key cf = inr value)
    ∧ (∀ e, get parsed key = inl e → getValue get key cf = inl (what e)).
Proof.
  intros Hload. unfold load in Hload.
  destruct (starts_with path PREFIX_FILE) eqn:Hstarts; [|discriminate].
  apply starts_with_spec in Hstarts as [name ->].
  rewrite advance_app, load_suffixes_ini in Hload.
  change (advance 5 (PREFIX_FILE +:+ name)) with name.
  destruct (ends_with name ".ini" || ends_with name ".cfg"); [|discriminate].
  destruct (read_ini name (pt self)) as [perr|parsed]; [discriminate|].
  simplify_eq. exists parsed. split; [done|].
  unfold getValue. simpl. split.
  - by intros value ->.
  - by intros e ->.
Qed.
End ConfigFileInvariants.

(** X8. Validation comes before parsing: a path that is null, or does
    not begin with ["file:"], or whose file name ends with neither
    [".ini"] nor [".cfg"], makes [load] throw one fixed message
    ("Invalid argument", "Invalid path prefix" or "Invalid type in file
    name" in that order of tests), the same for every parser, every
    file system and every state of the object. *)
Theorem load_rejects_before_parsing (path : option string) :
  (∀ name, path = Some ("file:" +:+ name) →
     ¬ (∃ front, name = front +:+ ".ini") ∧ ¬ (∃ front, name = front +:+ ".cfg")) →
  ∃ e,
    e ∈ ["Invalid argument"; "Invalid path prefix"; "Invalid type in file name"]
    ∧ (path = None ↔ e = "Invalid argument")
    ∧ ∀ (ptree : Type)
        (read_ini : string → ptree → ConfigFile.ini_parser_error + ptree)
        (self : ConfigFile.configFile ptree),
        ConfigFile.load read_ini path self = inl e.
Proof.
  intros Hrejected. destruct path as [path|].
  - destruct (ConfigFile.starts_with path ConfigFile.PREFIX_FILE) eqn:Hstarts.
    + apply starts_with_spec in Hstarts as [name ->].
      destruct (Hrejected name eq_refl) as [Hini Hcfg].
      exists "Invalid type in file name".
      split; [rewrite !elem_of_cons; auto|]. split; [done|].
      intros ptree read_ini self. unfold ConfigFile.load.
      assert (ConfigFile.starts_with (ConfigFile.PREFIX_FILE +:+ name)
                ConfigFile.PREFIX_FILE = true) as ->
        by (apply starts_with_spec; eauto).
      rewrite advance_app, load_suffixes_ini.
      destruct (ConfigFile.ends_with name ".ini") eqn:Hends.
      { apply ends_with_spec in Hends. contradiction. }
      destruct (ConfigFile.ends_with name ".cfg") eqn:Hends'; [|done].
      apply ends_with_spec in Hends'. contradiction.
    + exists "Invalid path prefix".
      split; [rewrite !elem_of_cons; auto|]. split; [done|].
      intros ptree read_ini self. unfold ConfigFile.load. by rewrite Hstarts.
  - exists "Invalid argument".
    split; [rewrite !elem_of_cons; auto|]. split; [done|]. done.
Qed.

(** *** The loader on concrete paths *)
Section ConfigFileInvariantsExamples.
Import ConfigFile.

Lemma load_returns_parsed_tree_witness :
  ∃ name,
    Some "file:/etc/app/config.ini" = Some ("file:" +:+ name)
    ∧ ((∃ front, name = front +:+ ".ini") ∨ (∃ front, name = front +:+ ".cfg"))
    ∧ sample_read_ini name []
      = inr [("app.name", "svc"); ("app.port", "5432")].
Proof.
  apply (load_returns_parsed_tree _ sample_read_ini (Some "file:/etc/app/config.ini")
           (Build_configFile [])
           (Build_configFile [("app.name", "svc"); ("app.port", "5432")])).
  reflexivity.
Defined.

Lemma load_short_path_witness :
  load sample_read_ini (Some "file:ini") (Build_configFile [])
  = inl "Invalid path prefix"
  ∨ load sample_read_ini (Some "file:ini") (Build_configFile [])
    = inl "Invalid type in file name".
Proof.
  apply (load_short_path _ sample_read_ini "file:ini" (Build_configFile [])).
  simpl. lia.
Defined.

Lemma getValue_after_load_witness :
  ∃ parsed,
    sample_read_ini "/etc/app/config.ini" [] = inr parsed
    ∧ (∀ value, sample_get parsed "app.name" = inr value →
         getValue sample_get "app.name"
           (Build_configFile [("app.name", "svc"); ("app.port", "5432")])
         = inr value)
    ∧ (∀ e, sample_get parsed "app.name" = inl e →
         getValue sample_get "app.name"
           (Build_configFile [("app.name", "svc"); ("app.port", "5432")])
         = inl (what e)).
Proof.
  apply (getValue_after_load _ sample_read_ini _ sample_get
           "file:/etc/app/config.ini" "app.name" (Build_configFile [])
           (Build_configFile [("app.name", "svc"); ("app.port", "5432")])).
  reflexivity.
Defined.

Lemma load_rejects_before_parsing_witness :
  ∃ e,
    e ∈ ["Invalid argument"; "Invalid path prefix"; "Invalid type in file name"]
    ∧ (Some "file:/etc/app/config.json" = None ↔ e = "Invalid argument")
    ∧ ∀ (ptree : Type) (read_ini : string → ptree → ini_parser_error + ptree)
        (self : configFile ptree),
        load read_ini (Some "file:/etc/app/config.json") self = inl e.
Proof.
  apply (load_rejects_before_parsing (Some "file:/etc/app/config.json")).
  intros name Hname. apply (inj Some) in Hname.
  change "file:/etc/app/config.json" with ("file:" +:+ "/etc/app/config.json")
    in Hname.
  apply (inj (String.app "file:")) in Hname. subst name.
  split; intros Hends; apply ends_with_spec in Hends; discriminate.
Defined.
End ConfigFileInvariantsExamples.
